(** * ISO 8583 codec and reconnect loop of the payment gateway

    A shallow embedding of [internal/iso8583/iso.go] (the codec: [Pack],
    [Unpack], the LLVAR/LLLVAR helpers and the echo predicates) and of the
    reconnect loop of [internal/transport] ([Connector.loop]), followed by
    the properties the specification states about them.

    Go values are modelled as follows.
    - [string] and [[]byte] are both [list byte]; the conversions
      [string(b)] and [[]byte(s)] are the identity.
    - [int], [uint16], [uint64] and [time.Duration] are [Z]; where the
      source narrows or shifts a fixed-width value the wrap-around is
      written out ([wrap16], [wrap64], [wrapInt64]).
    - [map[int]string] is [gmap Z (list byte)].
    - a function returning [(T, error)] returns [result T]; the third
      constructor [Panic] stands for a run-time panic (slice bounds out
      of range). *)

From Stdlib Require Import ZArith Lia List.
From Stdlib Require Import Strings.Byte Strings.String.
From stdpp Require Import base option list gmap.

Local Open Scope Z_scope.

(* ===================================================================== *)
(** ** The Go run time and standard library, as far as the code uses it  *)
(* ===================================================================== *)

Module Go.

#[global] Instance byte_eq_dec : EqDecision byte := Byte.byte_eq_dec.

(** [[]byte("...")] for literals. *)
Definition bytes (s : string) : list byte := list_byte_of_string s.

(** [len(x)] as a Go [int]. *)
Definition len (x : list byte) : Z := Z.of_nat (length x).

(** The numeric value of a byte, and the conversion [byte(v)], which keeps
    the low eight bits. *)
Definition byteZ (b : byte) : Z := Z.of_N (Byte.to_N b).

Definition Zbyte (v : Z) : byte :=
  match Byte.of_N (Z.to_N (v mod 256)) with
  | Some b => b
  | None => x00
  end.

Definition wrap16 (v : Z) : Z := v mod 2 ^ 16.
Definition wrap64 (v : Z) : Z := v mod 2 ^ 64.
Definition wrapInt64 (v : Z) : Z := (v + 2 ^ 63) mod 2 ^ 64 - 2 ^ 63.

(** Error values.  The texts of the source are kept as constructors; the
    numbers they format are kept as arguments, except for
    [unsupported field %d], where the number depends on the iteration
    order of a Go map, which the language leaves unspecified. *)
Inductive codec := LLVAR | LLLVAR.

Inductive error :=
| ErrInvalidMTI                       (* invalid MTI: %q *)
| ErrUnsupportedField                 (* unsupported field %d *)
| ErrFixedLength (de want got : Z)    (* DE%d must be %d digits, got %d *)
| ErrTooLong (c : codec) (n : Z)      (* value too long for LL(L)VAR: %d *)
| ErrNotImplemented (f : Z)           (* field %d not implemented in skeleton *)
| ErrShortMLI                         (* buffer too short for MLI *)
| ErrIncomplete (need have : Z)       (* incomplete message: need %d, have %d *)
| ErrShortHeader                      (* too short for MTI+bitmap *)
| ErrShortSecondary                   (* too short for secondary bitmap *)
| ErrTruncatedDE (de : Z)             (* truncated DE%d *)
| ErrTruncatedLength (c : codec)      (* truncated LL(L)VAR length *)
| ErrInvalidLength (c : codec)        (* invalid LL(L)VAR length: %w *)
| ErrTruncatedValue (c : codec)       (* truncated LL(L)VAR value *)
| ErrWrapDE (de : Z) (e : error)      (* DE%d: %w *)
| ErrExtraBytes (n : Z).              (* extra bytes at end: %d *)

Inductive result (A : Type) : Type :=
| Ok (a : A)
| Err (e : error)
| Panic.
Arguments Ok {A} a.
Arguments Err {A} e.
Arguments Panic {A}.

#[global] Instance result_ret : MRet result := fun A a => Ok a.
#[global] Instance result_bind : MBind result := fun A B f r =>
  match r with
  | Ok a => f a
  | Err e => Err e
  | Panic => Panic
  end.

Definition isOk {A} (r : result A) : bool :=
  match r with Ok _ => true | _ => false end.

(** The slice expression [b[lo:hi]].  It panics unless
    [0 <= lo <= hi <= cap(b)]; every use in the codec is guarded by a test
    against [len(b)], so the model takes the capacity to be the length. *)
Definition sub (b : list byte) (lo hi : Z) : list byte :=
  take (Z.to_nat (hi - lo)) (drop (Z.to_nat lo) b).

Definition slice (b : list byte) (lo hi : Z) : result (list byte) :=
  if (0 <=? lo) && (lo <=? hi) && (hi <=? len b)
  then Ok (sub b lo hi)
  else Panic.

(** [binary.BigEndian]. *)
Definition PutUint16 (v : Z) : list byte :=
  [Zbyte (Z.shiftr v 8); Zbyte v].

Definition PutUint64 (v : Z) : list byte :=
  [Zbyte (Z.shiftr v 56); Zbyte (Z.shiftr v 48); Zbyte (Z.shiftr v 40);
   Zbyte (Z.shiftr v 32); Zbyte (Z.shiftr v 24); Zbyte (Z.shiftr v 16);
   Zbyte (Z.shiftr v 8); Zbyte v].

Definition Uint16 (b : list byte) : Z :=
  match b with
  | b0 :: b1 :: _ => Z.lor (byteZ b1) (Z.shiftl (byteZ b0) 8)
  | _ => 0
  end.

Definition Uint64 (b : list byte) : Z :=
  match b with
  | b0 :: b1 :: b2 :: b3 :: b4 :: b5 :: b6 :: b7 :: _ =>
      Z.lor (byteZ b7) (Z.lor (Z.shiftl (byteZ b6) 8)
      (Z.lor (Z.shiftl (byteZ b5) 16) (Z.lor (Z.shiftl (byteZ b4) 24)
      (Z.lor (Z.shiftl (byteZ b3) 32) (Z.lor (Z.shiftl (byteZ b2) 40)
      (Z.lor (Z.shiftl (byteZ b1) 48) (Z.shiftl (byteZ b0) 56)))))))
  | _ => 0
  end.

(** [strconv.Atoi] on its fast path, which it takes for every string of
    1 to 18 bytes (the codec passes 2 or 3): an optional sign, then decimal
    digits only.  [None] is the syntax error. *)
Fixpoint atoiDigits (s : list byte) (n : Z) : option Z :=
  match s with
  | [] => Some n
  | ch :: rest =>
      let ch := (byteZ ch - 48) mod 256 in
      if ch >? 9 then None else atoiDigits rest (n * 10 + ch)
  end.

Definition Atoi (s0 : list byte) : option Z :=
  match s0 with
  | [] => None
  | c :: rest =>
      let signed := bool_decide (c = "-"%byte) || bool_decide (c = "+"%byte) in
      let s := if signed then rest else s0 in
      if signed && (len s <? 1) then None else
      match atoiDigits s 0 with
      | None => None
      | Some n => Some (if bool_decide (c = "-"%byte) then - n else n)
      end
  end.

(** [fmt.Sprintf("%0<w>d", n)] for [n >= 0]: the decimal digits of [n],
    padded with zeros on the left to [w] characters. *)
Fixpoint decimalRev (fuel : nat) (n : Z) : list byte :=
  match fuel with
  | O => []
  | S fuel' =>
      Zbyte (48 + n mod 10) ::
      (if n / 10 =? 0 then [] else decimalRev fuel' (n / 10))
  end.

Definition decimal (n : Z) : list byte :=
  rev (decimalRev (S (Z.to_nat (Z.log2 n))) n).

Definition Sprintf0d (w : nat) (n : Z) : list byte :=
  let ds := decimal n in
  replicate (w - length ds) "0"%byte ++ ds.

End Go.
Export Go.

(* ===================================================================== *)
(** ** internal/iso8583/iso.go                                           *)
(* ===================================================================== *)

Module iso8583.

(** [type Message struct { MTI string; Fields map[int]string }] *)
Record Message := { MTI : list byte; Fields : gmap Z (list byte) }.

Definition New (mti : list byte) : Message := {| MTI := mti; Fields := ∅ |}.

(** [Set]; the name is a keyword here.  The source updates the map in place;
    the model returns the updated message. *)
Definition Set_ (m : Message) (field : Z) (value : list byte) : Message :=
  {| MTI := MTI m; Fields := <[field := value]> (Fields m) |}.

(** [Get] returns the zero string and [false] for an absent field. *)
Definition Get (m : Message) (field : Z) : list byte * bool :=
  match Fields m !! field with
  | Some v => (v, true)
  | None => ([], false)
  end.

(** [packLLVAR] and [packLLLVAR] append to the buffer they are given. *)
Definition packLLVAR (buf v : list byte) : result (list byte) :=
  if len v >? 99 then Err (ErrTooLong LLVAR (len v))
  else Ok (buf ++ Sprintf0d 2 (len v) ++ v).

Definition packLLLVAR (buf v : list byte) : result (list byte) :=
  if len v >? 999 then Err (ErrTooLong LLLVAR (len v))
  else Ok (buf ++ Sprintf0d 3 (len v) ++ v).

(** [unpackLLVAR] and [unpackLLLVAR] return the value and the advanced
    offset. *)
Definition unpackLLVAR (b : list byte) (off : Z) : result (list byte * Z) :=
  if off + 2 >? len b then Err (ErrTruncatedLength LLVAR) else
  s ← slice b off (off + 2);
  match Atoi s with
  | None => Err (ErrInvalidLength LLVAR)
  | Some l =>
      let off := off + 2 in
      if off + l >? len b then Err (ErrTruncatedValue LLVAR) else
      v ← slice b off (off + l);
      Ok (v, off + l)
  end.

Definition unpackLLLVAR (b : list byte) (off : Z) : result (list byte * Z) :=
  if off + 3 >? len b then Err (ErrTruncatedLength LLLVAR) else
  s ← slice b off (off + 3);
  match Atoi s with
  | None => Err (ErrInvalidLength LLLVAR)
  | Some l =>
      let off := off + 3 in
      if off + l >? len b then Err (ErrTruncatedValue LLLVAR) else
      v ← slice b off (off + l);
      Ok (v, off + l)
  end.

(** The closure [set] of [Pack], on the pair [(primary, secondary)]. *)
Definition setBit (bm : Z * Z) (bit : Z) : Z * Z :=
  let '(primary, secondary) := bm in
  if bit <=? 64
  then (Z.lor primary (wrap64 (Z.shiftl 1 (64 - bit))), secondary)
  else (primary, Z.lor secondary (wrap64 (Z.shiftl 1 (128 - bit)))).

(** [for f := range m.Fields { ... set(f) }], over the keys of the map. *)
Fixpoint buildBitmaps (keys : list Z) (bm : Z * Z) : result (Z * Z) :=
  match keys with
  | [] => Ok bm
  | f :: rest =>
      if (f <? 1) || (f >? 128) || (f =? 1) then Err ErrUnsupportedField
      else buildBitmaps rest (setBit bm f)
  end.

(** The body of [switch f] in [Pack]. *)
Definition packField (f : Z) (v body : list byte) : result (list byte) :=
  if f =? 7 then
    if negb (len v =? 10) then Err (ErrFixedLength 7 10 (len v))
    else Ok (body ++ v)
  else if f =? 11 then
    if negb (len v =? 6) then Err (ErrFixedLength 11 6 (len v))
    else Ok (body ++ v)
  else if f =? 48 then
    match packLLLVAR body v with
    | Err e => Err (ErrWrapDE 48 e)
    | r => r
    end
  else if f =? 70 then
    if negb (len v =? 3) then Err (ErrFixedLength 70 3 (len v))
    else Ok (body ++ v)
  else if f =? 102 then
    match packLLVAR body v with
    | Err e => Err (ErrWrapDE 102 e)
    | r => r
    end
  else Err (ErrNotImplemented f).

(** [for f := 2; f <= 128; f++], as a recursion over the field numbers. *)
Definition fieldNumbers : list Z := seqZ 2 127.

Fixpoint packFields (fs : list Z) (fields : gmap Z (list byte))
    (body : list byte) : result (list byte) :=
  match fs with
  | [] => Ok body
  | f :: rest =>
      match fields !! f with
      | None => packFields rest fields body
      | Some v => body' ← packField f v body; packFields rest fields body'
      end
  end.

(** The last three statements of [Pack]. *)
Definition prependMLI (msg : list byte) : list byte :=
  PutUint16 (wrap16 (len msg)) ++ msg.

Definition Pack (m : Message) : result (list byte) :=
  if negb (len (MTI m) =? 4) then Err ErrInvalidMTI else
  '(primary, secondary) ← buildBitmaps (map_to_list (Fields m)).*1 (0, 0);
  let primary :=
    if negb (secondary =? 0) then Z.lor primary (wrap64 (Z.shiftl 1 63))
    else primary in
  let body := MTI m ++ PutUint64 primary in
  let body :=
    if negb (secondary =? 0) then body ++ PutUint64 secondary else body in
  body ← packFields fieldNumbers (Fields m) body;
  Ok (prependMLI body).

(** The closure [present] of [Unpack]. *)
Definition present (primary secondary bit : Z) : bool :=
  if bit <=? 64
  then negb (Z.land primary (wrap64 (Z.shiftl 1 (64 - bit))) =? 0)
  else negb (Z.land secondary (wrap64 (Z.shiftl 1 (128 - bit))) =? 0).

(** The body of [switch f] in [Unpack]: the value read and the new offset. *)
Definition unpackField (f : Z) (p : list byte) (off : Z)
    : result (list byte * Z) :=
  if f =? 7 then
    if off + 10 >? len p then Err (ErrTruncatedDE 7) else
    v ← slice p off (off + 10); Ok (v, off + 10)
  else if f =? 11 then
    if off + 6 >? len p then Err (ErrTruncatedDE 11) else
    v ← slice p off (off + 6); Ok (v, off + 6)
  else if f =? 48 then
    match unpackLLLVAR p off with
    | Err e => Err (ErrWrapDE 48 e)
    | r => r
    end
  else if f =? 70 then
    if off + 3 >? len p then Err (ErrTruncatedDE 70) else
    v ← slice p off (off + 3); Ok (v, off + 3)
  else if f =? 102 then
    match unpackLLVAR p off with
    | Err e => Err (ErrWrapDE 102 e)
    | r => r
    end
  else Err (ErrNotImplemented f).

Fixpoint unpackFields (fs : list Z) (p : list byte) (primary secondary : Z)
    (off : Z) (fields : gmap Z (list byte))
    : result (Z * gmap Z (list byte)) :=
  match fs with
  | [] => Ok (off, fields)
  | f :: rest =>
      if negb (present primary secondary f)
      then unpackFields rest p primary secondary off fields
      else
        '(v, off') ← unpackField f p off;
        unpackFields rest p primary secondary off' (<[f := v]> fields)
  end.

Definition Unpack (b : list byte) : result Message :=
  if len b <? 2 then Err ErrShortMLI else
  hdr ← slice b 0 2;
  let mli := Uint16 hdr in
  if len b - 2 <? mli then Err (ErrIncomplete mli (len b - 2)) else
  p ← slice b 2 (2 + mli);
  if len p <? 12 then Err ErrShortHeader else
  mti ← slice p 0 4;
  bm ← slice p 4 12;
  let primary := Uint64 bm in
  let off := 12 in
  '(secondary, off) ←
    (if negb (Z.land primary (wrap64 (Z.shiftl 1 63)) =? 0) then
       if len p <? off + 8 then Err ErrShortSecondary else
       bm2 ← slice p off (off + 8);
       Ok (Uint64 bm2, off + 8)
     else Ok (0, off));
  '(off, fields) ← unpackFields fieldNumbers p primary secondary off ∅;
  if negb (off =? len p) then Err (ErrExtraBytes (len p - off)) else
  Ok {| MTI := mti; Fields := fields |}.

(** [IsEchoResponse] *)
Definition IsEchoResponse (m : Message) : bool :=
  if negb (bool_decide (MTI m = bytes "0810")) then false else
  let '(v, ok) := Get m 70 in
  if negb ok || negb (bool_decide (v = bytes "301")) then false else
  let '(_, ok) := Get m 11 in
  ok.

End iso8583.

(* ===================================================================== *)
(** ** internal/transport: the reconnect loop of the Connector           *)
(* ===================================================================== *)

Module transport.

(** [time.Duration] counts nanoseconds in an [int64]. *)
Definition Second : Z := 1000000000.

(** The one option of [DialConfig] that [loop] reads. *)
Record DialConfig := { RetryBacko : Z }.

(** What [loop] does that can be observed: the callbacks it invokes, the
    calls of [time.Sleep] and of [readLoop]. *)
Inductive event :=
| OnDown
| Sleep (d : Z)
| OnUp
| ReadLoop.

(** [backoff := c.cfg.RetryBacko; if backoff <= 0 { backoff = 2 * time.Second }],
    which [loop] runs before its first iteration and after each successful
    dial. *)
Definition baseBackoff (cfg : DialConfig) : Z :=
  let backoff := RetryBacko cfg in
  if backoff <=? 0 then 2 * Second else backoff.

(** The body of [for !c.closed.Load()].  The environment is the list of the
    outcomes of the successive calls of [c.dial()] ([true]: connected) made
    until the connector is closed; [readLoop] returns when the connection
    drops. *)
Fixpoint iterate (cfg : DialConfig) (backoff : Z) (dials : list bool)
    : list event :=
  match dials with
  | [] => []
  | false :: rest =>
      OnDown :: Sleep backoff ::
      iterate cfg
        (if backoff <? 30 * Second then wrapInt64 (backoff * 2) else backoff)
        rest
  | true :: rest =>
      OnUp :: ReadLoop :: OnDown :: iterate cfg (baseBackoff cfg) rest
  end.

Definition loop (cfg : DialConfig) (dials : list bool) : list event :=
  iterate cfg (baseBackoff cfg) dials.

(** The durations slept, in order. *)
Definition sleeps (evs : list event) : list Z :=
  omap (fun e => match e with Sleep d => Some d | _ => None end) evs.

End transport.

(* ===================================================================== *)
(** ** Definitions used by the statements and the proofs                 *)
(* ===================================================================== *)

Import iso8583 transport.

(** *** The codec *)

(** The fields the skeleton implements. *)
Definition implemented (f : Z) : bool :=
  (f =? 7) || (f =? 11) || (f =? 48) || (f =? 70) || (f =? 102).

(** The five fields of the skeleton, with the lengths [Pack] accepts. *)
Definition fieldOk (f : Z) (v : list byte) : bool :=
  if f =? 7 then len v =? 10
  else if f =? 11 then len v =? 6
  else if f =? 48 then len v <=? 999
  else if f =? 70 then len v =? 3
  else if f =? 102 then len v <=? 99
  else false.

(** The longest encoding of a field. *)
Definition fieldMax (f : Z) : Z :=
  if f =? 7 then 10 else if f =? 11 then 6 else if f =? 48 then 1002
  else if f =? 70 then 3 else if f =? 102 then 101 else 0.

(** The outcome of writing to a buffer that already holds [pre]. *)
Definition prepend (pre : list byte) (r : result (list byte))
    : result (list byte) :=
  match r with
  | Ok d => Ok (pre ++ d)
  | Err e => Err e
  | Panic => Panic
  end.

(** The field numbers of a message, as [Pack] ranges over them. *)
Definition keysOf (m : Message) : list Z := (map_to_list (Fields m)).*1.

(** The two bitmaps of a set of field numbers: bit [64 - f] of the primary
    for a field [f <= 64], bit [128 - f] of the secondary for a field above. *)
Definition bitsOf (keys : list Z) (bm : Z * Z) : Prop :=
  (forall k, 0 <= k ->
     Z.testbit bm.1 k = true <-> k <= 62 /\ 64 - k ∈ keys) /\
  (forall k, 0 <= k ->
     Z.testbit bm.2 k = true <-> k <= 63 /\ 128 - k ∈ keys).

(** The bitmap bytes [Pack] writes for the bitmaps [bm] it has built. *)
Definition bitmapBytes (bm : Z * Z) : list byte :=
  PutUint64 (if bm.2 =? 0 then bm.1 else Z.lor bm.1 (2 ^ 63)) ++
  (if bm.2 =? 0 then [] else PutUint64 bm.2).

(** What [unpackLLVAR] ([w = 2]) and [unpackLLLVAR] ([w = 3]) do once the
    length prefix is known to lie inside the buffer. *)
Definition unpackVar (w : Z) (c : codec) (b : list byte) (off : Z)
    : result (list byte * Z) :=
  match Atoi (sub b off (off + w)) with
  | None => Err (ErrInvalidLength c)
  | Some l =>
      if off + w + l >? len b then Err (ErrTruncatedValue c)
      else if l <? 0 then Panic
      else Ok (sub b (off + w) (off + w + l), off + w + l)
  end.

(** What [Unpack] does for a field of fixed length [n]. *)
Definition unpackFixed (de n : Z) (p : list byte) (off : Z)
    : result (list byte * Z) :=
  if off + n >? len p then Err (ErrTruncatedDE de)
  else Ok (sub p off (off + n), off + n).

(** [fmt.Errorf("DE%d: %w", err)] around a result. *)
Definition wrapDE {A} (de : Z) (r : result A) : result A :=
  match r with
  | Err e => Err (ErrWrapDE de e)
  | r => r
  end.

(** What [Unpack] does with the payload [p := b[2 : 2+mli]]. *)
Definition unpackPayload (p : list byte) : result Message :=
  if len p <? 12 then Err ErrShortHeader else
  let primary := Uint64 (sub p 4 12) in
  '(secondary, off) ←
    (if Z.testbit primary 63 then
       if len p <? 20 then Err ErrShortSecondary
       else Ok (Uint64 (sub p 12 20), 20)
     else Ok (0, 12));
  '(off, fields) ← unpackFields fieldNumbers p primary secondary off ∅;
  if negb (off =? len p) then Err (ErrExtraBytes (len p - off)) else
  Ok {| MTI := sub p 0 4; Fields := fields |}.

(** *** Canonical frames *)

Definition isDigit (c : byte) : bool := (48 <=? byteZ c) && (byteZ c <=? 57).

(** The bytes [Unpack] reads as the length prefix of field [f] at [off]. *)
Definition lengthPrefix (f : Z) (p : list byte) (off : Z) : list byte :=
  if f =? 48 then sub p off (off + 3)
  else if f =? 102 then sub p off (off + 2)
  else [].

(** The length prefixes that the walk of [Unpack] reads are made of digits
    only. *)
Fixpoint plainPrefixes (fs : list Z) (p : list byte) (prim sec off : Z)
    : bool :=
  match fs with
  | [] => true
  | f :: rest =>
      if negb (present prim sec f) then plainPrefixes rest p prim sec off
      else
        forallb isDigit (lengthPrefix f p off) &&
        match unpackField f p off with
        | Ok (_, off') => plainPrefixes rest p prim sec off'
        | _ => true
        end
  end.

(** A frame is canonical when it ends where its MLI says, has bit 1 of the
    primary bitmap set only in front of a secondary bitmap that is not zero,
    and has length prefixes made of digits only. *)
Definition canonical (b : list byte) : bool :=
  let p := sub b 2 (len b) in
  let primary := Uint64 (sub p 4 12) in
  let hasSecondary := Z.testbit primary 63 in
  let secondary := if hasSecondary then Uint64 (sub p 12 20) else 0 in
  (len b =? 2 + Uint16 (sub b 0 2)) &&
  implb hasSecondary (negb (secondary =? 0)) &&
  plainPrefixes fieldNumbers p primary secondary
    (if hasSecondary then 20 else 12).

(** *** Messages and frames of the test suite *)

(** The echo request with STAN 123456 sent at [0102030405], and its frame. *)
Definition echoRequest : Message :=
  Set_ (Set_ (Set_ (New (bytes "0800")) 7 (bytes "0102030405"))
             11 (bytes "123456")) 70 (bytes "301").

Definition echoRequestFrame : list byte :=
  Eval vm_compute in
    match Pack echoRequest with Ok b => b | _ => [] end.

(** The message of [TestMessageWithVariableFields], and its frame. *)
Definition variableFields : Message :=
  Set_ (Set_ (Set_ (Set_ (New (bytes "0800")) 7 (bytes "0102030405"))
                   11 (bytes "123456")) 48 (bytes "HELLO WORLD"))
       102 (bytes "ACC1234567").

Definition variableFieldsFrame : list byte :=
  Eval vm_compute in
    match Pack variableFields with Ok b => b | _ => [] end.

(** The message of [TestUnpackExtraBytes], and its payload. *)
Definition stanMessage : Message :=
  Set_ (New (bytes "0200")) 11 (bytes "123456").

Definition stanPayload : list byte :=
  bytes "0200" ++ [x00; x20; x00; x00; x00; x00; x00; x00] ++ bytes "123456".

(** The message of [TestBadDataResponse]. *)
Definition badDataResponse : Message :=
  Set_ (New (bytes "0210")) 39 (bytes "30").

(** A message with a PAN, field 2 of [CommonSpec]. *)
Definition panMessage : Message :=
  Set_ (New (bytes "0200")) 2 (bytes "4111111111111111").

(** A frame whose primary bitmap announces a secondary bitmap that is zero. *)
Definition emptySecondaryFrame : list byte :=
  [x00; x14] ++ bytes "0800" ++
  [x80; x00; x00; x00; x00; x00; x00; x00] ++
  [x00; x00; x00; x00; x00; x00; x00; x00].

(** A frame with field 48 whose length prefix reads [-01]. *)
Definition negativeLengthFrame : list byte :=
  [x00; x0f] ++ bytes "0200" ++
  [x00; x00; x00; x00; x00; x01; x00; x00] ++ bytes "-01".

(** A frame with field 48 whose length prefix reads [+05]. *)
Definition signedLengthFrame : list byte :=
  [x00; x14] ++ bytes "0200" ++
  [x00; x00; x00; x00; x00; x01; x00; x00] ++ bytes "+05HELLO".

(** The bitmaps of a frame, as [Unpack] reads them: the primary, and the
    secondary if bit 1 of the primary is set, zero otherwise. *)
Definition frameBitmaps (b : list byte) : Z * Z :=
  let p := sub b 2 (2 + Uint16 (sub b 0 2)) in
  let primary := Uint64 (sub p 4 12) in
  (primary, if Z.testbit primary 63 then Uint64 (sub p 12 20) else 0).

(** The bytes [Pack] writes for field [f] of [m]: nothing if the field is
    absent, else the value, after its length for fields 48 and 102. *)
Definition wireField (m : Message) (f : Z) : list byte :=
  match Fields m !! f with
  | None => []
  | Some v =>
      if f =? 48 then Sprintf0d 3 (len v) ++ v
      else if f =? 102 then Sprintf0d 2 (len v) ++ v
      else v
  end.

(* ===================================================================== *)
(** ** Properties                                                        *)
(* ===================================================================== *)

(** *** The model on small inputs *)

Example Sprintf0d_4 : Sprintf0d 2 4 = bytes "04". Proof. reflexivity. Qed.
Example Sprintf0d_11 : Sprintf0d 3 11 = bytes "011". Proof. reflexivity. Qed.
Example Sprintf0d_999 : Sprintf0d 3 999 = bytes "999". Proof. reflexivity. Qed.
Example Sprintf0d_1000 : Sprintf0d 3 1000 = bytes "1000". Proof. reflexivity. Qed.
Example Atoi_neg : Atoi (bytes "-1") = Some (-1). Proof. reflexivity. Qed.
Example Atoi_pos : Atoi (bytes "+5") = Some 5. Proof. reflexivity. Qed.
Example Atoi_bad : Atoi (bytes "1a") = None. Proof. reflexivity. Qed.
Example Atoi_sign : Atoi (bytes "-") = None. Proof. reflexivity. Qed.
Example Uint16_Put : Uint16 (PutUint16 1142) = 1142. Proof. reflexivity. Qed.

(** *** Bytes and big-endian integers *)

Lemma byteZ_range b : 0 <= byteZ b < 256.
Proof.
  unfold byteZ. pose proof (Byte.to_N_bounded b). lia.
Qed.

Lemma Zbyte_byteZ b : Zbyte (byteZ b) = b.
Proof.
  unfold Zbyte. rewrite Z.mod_small by apply byteZ_range.
  unfold byteZ. rewrite N2Z.id, Byte.of_to_N. reflexivity.
Qed.

Lemma byteZ_Zbyte v : byteZ (Zbyte v) = v mod 256.
Proof.
  unfold Zbyte, byteZ.
  assert (Hr : 0 <= v mod 256 < 256) by (apply Z.mod_pos_bound; lia).
  destruct (Byte.of_N (Z.to_N (v mod 256))) as [b|] eqn:E.
  - apply Byte.to_of_N in E. rewrite E. lia.
  - apply Byte.of_N_None_iff in E. lia.
Qed.

Lemma Zbyte_mod v : Zbyte (v mod 256) = Zbyte v.
Proof. unfold Zbyte. rewrite Z.mod_mod by lia. reflexivity. Qed.

Lemma lor_shiftl_add a b n :
  0 <= n -> 0 <= a < 2 ^ n -> Z.lor a (Z.shiftl b n) = a + b * 2 ^ n.
Proof.
  intros Hn Ha. rewrite Z.shiftl_mul_pow2 by lia.
  rewrite <- Z.add_nocarry_lor; [reflexivity|].
  apply Z.bits_inj'. intros k Hk. rewrite Z.land_spec, Z.bits_0.
  destruct (Z.lt_ge_cases k n).
  - rewrite Z.mul_pow2_bits_low by lia. apply andb_false_r.
  - rewrite <- (Z.mod_small a (2 ^ n)) by lia.
    rewrite Z.mod_pow2_bits_high by lia. reflexivity.
Qed.

Lemma Uint16_eq b0 b1 l : Uint16 (b0 :: b1 :: l) = byteZ b1 + byteZ b0 * 256.
Proof.
  unfold Uint16. rewrite lor_shiftl_add; [reflexivity|lia|].
  pose proof (byteZ_range b1). simpl. lia.
Qed.

Lemma lor_add_high a b n :
  0 <= n -> 0 <= a < 2 ^ n -> (2 ^ n | b) -> Z.lor a b = a + b.
Proof.
  intros Hn Ha [c ->]. rewrite <- lor_shiftl_add by assumption.
  rewrite Z.shiftl_mul_pow2 by lia. reflexivity.
Qed.

Ltac byte_ranges :=
  repeat match goal with
  | b : byte |- _ =>
      lazymatch goal with
      | H : 0 <= byteZ b < 256 |- _ => fail
      | _ => pose proof (byteZ_range b)
      end
  end.

Lemma Uint64_eq b0 b1 b2 b3 b4 b5 b6 b7 l :
  Uint64 (b0 :: b1 :: b2 :: b3 :: b4 :: b5 :: b6 :: b7 :: l) =
  byteZ b7 + byteZ b6 * 2 ^ 8 + byteZ b5 * 2 ^ 16 + byteZ b4 * 2 ^ 24 +
  byteZ b3 * 2 ^ 32 + byteZ b2 * 2 ^ 40 + byteZ b1 * 2 ^ 48 + byteZ b0 * 2 ^ 56.
Proof.
  unfold Uint64. byte_ranges.
  rewrite !Z.shiftl_mul_pow2 by lia.
  rewrite (lor_add_high (byteZ b1 * 2 ^ 48) _ 56) by
    (try lia; eexists; reflexivity).
  rewrite (lor_add_high (byteZ b2 * 2 ^ 40) _ 48) by
    (try lia; exists (byteZ b1 + byteZ b0 * 2 ^ 8); lia).
  rewrite (lor_add_high (byteZ b3 * 2 ^ 32) _ 40) by
    (try lia; exists (byteZ b2 + byteZ b1 * 2 ^ 8 + byteZ b0 * 2 ^ 16); lia).
  rewrite (lor_add_high (byteZ b4 * 2 ^ 24) _ 32) by
    (try lia; exists (byteZ b3 + byteZ b2 * 2 ^ 8 + byteZ b1 * 2 ^ 16 +
                      byteZ b0 * 2 ^ 24); lia).
  rewrite (lor_add_high (byteZ b5 * 2 ^ 16) _ 24) by
    (try lia; exists (byteZ b4 + byteZ b3 * 2 ^ 8 + byteZ b2 * 2 ^ 16 +
                      byteZ b1 * 2 ^ 24 + byteZ b0 * 2 ^ 32); lia).
  rewrite (lor_add_high (byteZ b6 * 2 ^ 8) _ 16) by
    (try lia; exists (byteZ b5 + byteZ b4 * 2 ^ 8 + byteZ b3 * 2 ^ 16 +
                      byteZ b2 * 2 ^ 24 + byteZ b1 * 2 ^ 32 +
                      byteZ b0 * 2 ^ 40); lia).
  rewrite (lor_add_high (byteZ b7) _ 8) by
    (try lia; exists (byteZ b6 + byteZ b5 * 2 ^ 8 + byteZ b4 * 2 ^ 16 +
                      byteZ b3 * 2 ^ 24 + byteZ b2 * 2 ^ 32 +
                      byteZ b1 * 2 ^ 40 + byteZ b0 * 2 ^ 48); lia).
  lia.
Qed.

Lemma Uint64_range bs : 0 <= Uint64 bs < 2 ^ 64.
Proof.
  destruct bs as [|b0 [|b1 [|b2 [|b3 [|b4 [|b5 [|b6 [|b7 l]]]]]]]];
    try (simpl; lia).
  rewrite Uint64_eq. byte_ranges. lia.
Qed.

Lemma Zbyte_inj_mod v b : v mod 256 = byteZ b -> Zbyte v = b.
Proof. intros H. rewrite <- Zbyte_mod, H. apply Zbyte_byteZ. Qed.

Lemma PutUint64_Uint64 bs : length bs = 8%nat -> PutUint64 (Uint64 bs) = bs.
Proof.
  intros H.
  destruct bs as [|b0 [|b1 [|b2 [|b3 [|b4 [|b5 [|b6 [|b7 [|]]]]]]]]];
    try discriminate.
  rewrite Uint64_eq. unfold PutUint64. byte_ranges.
  rewrite !Z.shiftr_div_pow2 by lia.
  repeat f_equal; apply Zbyte_inj_mod;
    Z.to_euclidean_division_equations; lia.
Qed.

Lemma Uint64_PutUint64 v : 0 <= v < 2 ^ 64 -> Uint64 (PutUint64 v) = v.
Proof.
  intros Hv. unfold PutUint64. rewrite Uint64_eq, !byteZ_Zbyte.
  rewrite !Z.shiftr_div_pow2 by lia.
  Z.to_euclidean_division_equations; lia.
Qed.

Lemma PutUint16_Uint16 b0 b1 : PutUint16 (Uint16 [b0; b1]) = [b0; b1].
Proof.
  rewrite Uint16_eq. unfold PutUint16. byte_ranges.
  rewrite !Z.shiftr_div_pow2 by lia.
  repeat f_equal; apply Zbyte_inj_mod;
    Z.to_euclidean_division_equations; lia.
Qed.

Lemma Uint16_PutUint16 v l : 0 <= v < 2 ^ 16 -> Uint16 (PutUint16 v ++ l) = v.
Proof.
  intros Hv. unfold PutUint16. cbn [app]. rewrite Uint16_eq, !byteZ_Zbyte.
  rewrite !Z.shiftr_div_pow2 by lia.
  Z.to_euclidean_division_equations; lia.
Qed.

Lemma Uint16_range bs : 0 <= Uint16 bs < 2 ^ 16.
Proof.
  destruct bs as [|b0 [|b1 l]]; try (simpl; lia).
  rewrite Uint16_eq. byte_ranges. lia.
Qed.

(** *** Lengths and slices *)

Lemma len_nonneg x : 0 <= len x.
Proof. unfold len. lia. Qed.

Lemma len_app x y : len (x ++ y) = len x + len y.
Proof. unfold len. rewrite length_app. lia. Qed.

Lemma len_cons c x : len (c :: x) = 1 + len x.
Proof. unfold len. cbn [length]. lia. Qed.

Lemma len_nil : len [] = 0.
Proof. reflexivity. Qed.

Lemma len_take n x : 0 <= n <= len x -> len (take (Z.to_nat n) x) = n.
Proof. unfold len. intros H. rewrite length_take. lia. Qed.

Lemma len_drop n x : 0 <= n <= len x -> len (drop (Z.to_nat n) x) = len x - n.
Proof. unfold len. intros H. rewrite length_drop. lia. Qed.

Lemma slice_Ok b lo hi :
  0 <= lo <= hi -> hi <= len b -> slice b lo hi = Ok (sub b lo hi).
Proof.
  intros H1 H2. unfold slice.
  destruct (Z.leb_spec 0 lo); [|lia].
  destruct (Z.leb_spec lo hi); [|lia].
  destruct (Z.leb_spec hi (len b)); [|lia]. reflexivity.
Qed.

Lemma slice_inv b lo hi v :
  slice b lo hi = Ok v -> 0 <= lo <= hi /\ hi <= len b /\ v = sub b lo hi.
Proof.
  unfold slice.
  destruct (Z.leb_spec 0 lo); [|discriminate].
  destruct (Z.leb_spec lo hi); [|discriminate].
  destruct (Z.leb_spec hi (len b)); [|discriminate].
  cbn. intros [= <-]. auto with lia.
Qed.

Lemma slice_Panic b lo hi : hi < lo -> slice b lo hi = Panic.
Proof.
  intros H. unfold slice.
  destruct (Z.leb_spec lo hi); [lia|]. rewrite andb_false_r. reflexivity.
Qed.

Lemma len_sub b lo hi : 0 <= lo <= hi -> hi <= len b -> len (sub b lo hi) = hi - lo.
Proof.
  intros H1 H2. unfold sub. rewrite len_take; [lia|].
  rewrite len_drop by lia. lia.
Qed.

Lemma sub_app_l b x lo hi :
  0 <= lo <= hi -> hi <= len b -> sub (b ++ x) lo hi = sub b lo hi.
Proof.
  intros H1 H2. unfold sub, len in *.
  rewrite drop_app_le by lia. rewrite take_app_le; [reflexivity|].
  rewrite length_drop. lia.
Qed.

Lemma sub_app_r b x lo hi :
  0 <= lo <= hi -> sub (b ++ x) (len b + lo) (len b + hi) = sub x lo hi.
Proof.
  intros H. unfold sub, len.
  replace (Z.to_nat (Z.of_nat (length b) + lo)) with (length b + Z.to_nat lo)%nat by lia.
  rewrite drop_app_add'; [|reflexivity].
  f_equal. lia.
Qed.

Lemma sub_split b lo mid hi :
  0 <= lo <= mid -> mid <= hi -> hi <= len b ->
  sub b lo hi = sub b lo mid ++ sub b mid hi.
Proof.
  intros H1 H2 H3. unfold sub, len in *.
  replace (Z.to_nat (hi - lo)) with (Z.to_nat (mid - lo) + Z.to_nat (hi - mid))%nat by lia.
  rewrite <- take_take_drop, drop_drop. repeat f_equal; lia.
Qed.

Lemma sub_nil b lo : sub b lo lo = [].
Proof. unfold sub. rewrite Z.sub_diag. reflexivity. Qed.

Lemma sub_all b : sub b 0 (len b) = b.
Proof.
  unfold sub, len. rewrite Z.sub_0_r, Nat2Z.id. cbn. apply firstn_all.
Qed.

(** *** The result monad *)

Lemma bind_ret_r {A} (r : result A) : (r ≫= Ok) = r.
Proof. destruct r; reflexivity. Qed.

Lemma bind_Ok_inv {A B} (f : A -> result B) r b :
  (r ≫= f) = Ok b -> exists a, r = Ok a /\ f a = Ok b.
Proof. destruct r; cbn; intros H; try discriminate. eauto. Qed.

(** *** [packField] and [packFields] *)

Lemma packField_not_implemented f v body :
  implemented f = false -> packField f v body = Err (ErrNotImplemented f).
Proof.
  unfold implemented, packField. intros H.
  repeat apply orb_false_elim in H as [H ?].
  repeat match goal with E : (_ =? _) = false |- _ => rewrite E; clear E end.
  reflexivity.
Qed.

Lemma packFields_app fs1 fs2 flds body :
  packFields (fs1 ++ fs2) flds body =
  packFields fs1 flds body ≫= packFields fs2 flds.
Proof.
  revert body. induction fs1 as [|f fs1 IH]; intros body; cbn [packFields app].
  - reflexivity.
  - destruct (flds !! f) as [v|]; [|apply IH].
    destruct (packField f v body) as [b'| |]; cbn; [apply IH|reflexivity..].
Qed.

Lemma packFields_absent fs flds body :
  (forall f, f ∈ fs -> flds !! f = None) -> packFields fs flds body = Ok body.
Proof.
  induction fs as [|f fs IH]; intros H; cbn [packFields]; [reflexivity|].
  rewrite H by (apply elem_of_cons; auto).
  apply IH. intros g Hg. apply H, elem_of_cons. auto.
Qed.

Lemma packFields_singleton fs k v body :
  NoDup fs ->
  packFields fs {[k := v]} body =
  if bool_decide (k ∈ fs) then packField k v body else Ok body.
Proof.
  intros Hnd. revert body. induction Hnd as [|f fs Hf Hnd IH]; intros body.
  - reflexivity.
  - cbn [packFields]. destruct (decide (k = f)) as [->|Hne].
    + rewrite lookup_singleton_eq. rewrite bool_decide_eq_true_2 by left.
      rewrite <- (bind_ret_r (packField f v body)) at 2.
      destruct (packField f v body) as [b'| |]; cbn; try reflexivity.
      rewrite IH. by rewrite bool_decide_eq_false_2.
    + rewrite lookup_singleton_ne by done. rewrite IH.
      apply (f_equal (fun b : bool => if b then _ else _)).
      apply bool_decide_ext. rewrite elem_of_cons. intuition congruence.
Qed.

Lemma NoDup_fieldNumbers : NoDup fieldNumbers.
Proof. apply NoDup_seqZ. Qed.

Lemma elem_of_fieldNumbers f : f ∈ fieldNumbers <-> 2 <= f <= 128.
Proof. unfold fieldNumbers. rewrite elem_of_seqZ. lia. Qed.

(** Writing to the buffer only appends: the bytes already in it stay, and the
    outcome does not depend on them. *)
Lemma packField_prepend f v body :
  packField f v body = prepend body (packField f v []).
Proof.
  unfold packField, packLLVAR, packLLLVAR.
  repeat match goal with
  | |- context [if ?c then _ else _] => destruct c; cbn
  end; reflexivity.
Qed.

Lemma prepend_prepend a b r : prepend a (prepend b r) = prepend (a ++ b) r.
Proof. destruct r; cbn; [rewrite app_assoc|..]; reflexivity. Qed.

Lemma packFields_prepend fs flds body :
  packFields fs flds body = prepend body (packFields fs flds []).
Proof.
  revert body. induction fs as [|f fs IH]; intros body; cbn [packFields].
  - cbn. by rewrite app_nil_r.
  - destruct (flds !! f) as [v|]; [|apply IH].
    rewrite (packField_prepend f v body).
    destruct (packField f v []) as [d| |]; cbn; try reflexivity.
    rewrite IH, (IH d), prepend_prepend. reflexivity.
Qed.

(** *** Digits *)

Lemma forallb_seqZ (P : Z -> bool) lo n :
  forallb P (seqZ lo n) = true -> forall x, lo <= x < lo + n -> P x = true.
Proof.
  intros H x Hx. rewrite forallb_forall in H. apply H.
  apply list_elem_of_In, elem_of_seqZ. exact Hx.
Qed.

Lemma Sprintf0d_2_Atoi n :
  0 <= n <= 99 ->
  length (Sprintf0d 2 n) = 2%nat /\ Atoi (Sprintf0d 2 n) = Some n.
Proof.
  intros Hn.
  pose (P := fun n => bool_decide (length (Sprintf0d 2 n) = 2%nat /\
                                   Atoi (Sprintf0d 2 n) = Some n)).
  assert (H : forallb P (seqZ 0 100) = true) by (vm_compute; reflexivity).
  apply (bool_decide_eq_true_1 _), (forallb_seqZ P 0 100 H n). lia.
Qed.

Lemma Sprintf0d_3_Atoi n :
  0 <= n <= 999 ->
  length (Sprintf0d 3 n) = 3%nat /\ Atoi (Sprintf0d 3 n) = Some n.
Proof.
  intros Hn.
  pose (P := fun n => bool_decide (length (Sprintf0d 3 n) = 3%nat /\
                                   Atoi (Sprintf0d 3 n) = Some n)).
  assert (H : forallb P (seqZ 0 1000) = true) by (vm_compute; reflexivity).
  apply (bool_decide_eq_true_1 _), (forallb_seqZ P 0 1000 H n). lia.
Qed.

Lemma isDigit_inv c : isDigit c = true -> exists d, 48 <= d < 48 + 10 /\ c = Zbyte d.
Proof.
  unfold isDigit. intros [H1 H2]%andb_true_iff.
  exists (byteZ c). rewrite Zbyte_byteZ. split; [lia|reflexivity].
Qed.

(** A length prefix made of decimal digits only is the one [Sprintf0d]
    prints for the number [Atoi] reads from it. *)
Lemma Atoi_2_digits s l :
  length s = 2%nat -> forallb isDigit s = true -> Atoi s = Some l ->
  0 <= l <= 99 /\ Sprintf0d 2 l = s.
Proof.
  intros Hlen Hd Ha.
  destruct s as [|c1 [|c2 [|]]]; try discriminate.
  cbn in Hd. apply andb_true_iff in Hd as [H1 [H2 _]%andb_true_iff].
  apply isDigit_inv in H1 as (d1 & Hd1 & ->).
  apply isDigit_inv in H2 as (d2 & Hd2 & ->).
  pose (P := fun d1 => forallb (fun d2 =>
     match Atoi [Zbyte d1; Zbyte d2] with
     | Some l => bool_decide (0 <= l <= 99 /\ Sprintf0d 2 l = [Zbyte d1; Zbyte d2])
     | None => false
     end) (seqZ 48 10)).
  assert (H : forallb P (seqZ 48 10) = true) by (vm_compute; reflexivity).
  pose proof (forallb_seqZ P 48 10 H d1 Hd1) as H1. unfold P in H1.
  pose proof (forallb_seqZ _ 48 10 H1 d2 Hd2) as H2. cbn beta in H2.
  rewrite Ha in H2. apply bool_decide_eq_true_1 in H2. exact H2.
Qed.

Lemma Atoi_3_digits s l :
  length s = 3%nat -> forallb isDigit s = true -> Atoi s = Some l ->
  0 <= l <= 999 /\ Sprintf0d 3 l = s.
Proof.
  intros Hlen Hd Ha.
  destruct s as [|c1 [|c2 [|c3 [|]]]]; try discriminate.
  cbn in Hd. apply andb_true_iff in Hd as [H1 [H2 [H3 _]%andb_true_iff]%andb_true_iff].
  apply isDigit_inv in H1 as (d1 & Hd1 & ->).
  apply isDigit_inv in H2 as (d2 & Hd2 & ->).
  apply isDigit_inv in H3 as (d3 & Hd3 & ->).
  pose (P := fun d1 => forallb (fun d2 => forallb (fun d3 =>
     match Atoi [Zbyte d1; Zbyte d2; Zbyte d3] with
     | Some l => bool_decide (0 <= l <= 999 /\
                              Sprintf0d 3 l = [Zbyte d1; Zbyte d2; Zbyte d3])
     | None => false
     end) (seqZ 48 10)) (seqZ 48 10)).
  assert (H : forallb P (seqZ 48 10) = true) by (vm_compute; reflexivity).
  pose proof (forallb_seqZ P 48 10 H d1 Hd1) as H1. unfold P in H1.
  pose proof (forallb_seqZ _ 48 10 H1 d2 Hd2) as H2. cbn beta in H2.
  pose proof (forallb_seqZ _ 48 10 H2 d3 Hd3) as H3. cbn beta in H3.
  rewrite Ha in H3. apply bool_decide_eq_true_1 in H3. exact H3.
Qed.

(** *** Bitmaps *)

Lemma wrap64_bit k : 0 <= k < 64 -> wrap64 (Z.shiftl 1 k) = 2 ^ k.
Proof.
  intros Hk. unfold wrap64. rewrite Z.shiftl_1_l.
  apply Z.mod_small. split; [apply Z.pow_nonneg; lia|].
  apply Z.pow_lt_mono_r; lia.
Qed.

Lemma land_bit_eqb a k :
  0 <= k -> (Z.land a (2 ^ k) =? 0) = negb (Z.testbit a k).
Proof.
  intros Hk. destruct (Z.testbit a k) eqn:E; cbn.
  - apply Z.eqb_neq. intros H0.
    assert (Hb : Z.testbit (Z.land a (2 ^ k)) k = true).
    { rewrite Z.land_spec, E, Z.pow2_bits_true by lia. reflexivity. }
    rewrite H0, Z.bits_0 in Hb. discriminate.
  - apply Z.eqb_eq. apply Z.bits_inj'. intros j Hj.
    rewrite Z.land_spec, Z.bits_0, Z.pow2_bits_eqb by lia.
    destruct (Z.eqb_spec k j) as [->|]; [rewrite E|]; auto using andb_false_r.
Qed.

Lemma present_low prim sec f :
  2 <= f <= 64 -> present prim sec f = Z.testbit prim (64 - f).
Proof.
  intros Hf. unfold present. destruct (Z.leb_spec f 64); [|lia].
  rewrite wrap64_bit, land_bit_eqb, negb_involutive by lia. reflexivity.
Qed.

Lemma present_high prim sec f :
  65 <= f <= 128 -> present prim sec f = Z.testbit sec (128 - f).
Proof.
  intros Hf. unfold present. destruct (Z.leb_spec f 64); [lia|].
  rewrite wrap64_bit, land_bit_eqb, negb_involutive by lia. reflexivity.
Qed.

Lemma lor_bit a k j :
  0 <= k -> 0 <= j ->
  Z.testbit (Z.lor a (2 ^ k)) j = Z.testbit a j || (k =? j).
Proof.
  intros Hk Hj. rewrite Z.lor_spec, Z.pow2_bits_eqb by lia. reflexivity.
Qed.

Lemma buildBitmaps_Err keys bm :
  ~ Forall (fun f => 2 <= f <= 128) keys ->
  buildBitmaps keys bm = Err ErrUnsupportedField.
Proof.
  revert bm. induction keys as [|f keys IH]; intros bm H.
  - destruct H. constructor.
  - cbn [buildBitmaps].
    destruct ((f <? 1) || (f >? 128) || (f =? 1)) eqn:E; [reflexivity|].
    apply IH. intros HF. apply H. constructor; [|exact HF].
    repeat apply orb_false_elim in E as [E ?]. lia.
Qed.

Lemma buildBitmaps_acc keys bm :
  Forall (fun f => 2 <= f <= 128) keys ->
  exists bm', buildBitmaps keys bm = Ok bm' /\
    (forall k, 0 <= k -> Z.testbit bm'.1 k = true <->
       Z.testbit bm.1 k = true \/ (k <= 62 /\ 64 - k ∈ keys)) /\
    (forall k, 0 <= k -> Z.testbit bm'.2 k = true <->
       Z.testbit bm.2 k = true \/ (k <= 63 /\ 128 - k ∈ keys)).
Proof.
  intros HF. revert bm. induction HF as [|f keys Hf HF IH]; intros bm.
  - exists bm. cbn. repeat split; try tauto; intros [?|[_ ?%elem_of_nil]]; tauto.
  - cbn [buildBitmaps].
    destruct (Z.ltb_spec f 1); [lia|]. destruct (Z.gtb_spec f 128); [lia|].
    destruct (Z.eqb_spec f 1); [lia|]. cbn [orb].
    destruct (IH (setBit bm f)) as (bm' & -> & Hp & Hs).
    exists bm'. split; [reflexivity|].
    destruct bm as [p s]. unfold setBit in Hp, Hs.
    destruct (Z.leb_spec f 64); cbn [fst snd] in *.
    + rewrite wrap64_bit in Hp by lia. split; intros k Hk.
      * rewrite Hp, lor_bit, orb_true_iff, elem_of_cons, Z.eqb_eq by lia. 
        intuition lia.
      * rewrite Hs, elem_of_cons by lia. intuition lia.
    + rewrite wrap64_bit in Hs by lia. split; intros k Hk.
      * rewrite Hp, elem_of_cons by lia. intuition lia.
      * rewrite Hs, lor_bit, orb_true_iff, elem_of_cons, Z.eqb_eq by lia.
        intuition lia.
Qed.

Lemma buildBitmaps_Ok keys :
  Forall (fun f => 2 <= f <= 128) keys ->
  exists bm, buildBitmaps keys (0, 0) = Ok bm /\ bitsOf keys bm.
Proof.
  intros HF. destruct (buildBitmaps_acc keys (0, 0) HF) as (bm & E & Hp & Hs).
  exists bm. split; [exact E|]. cbn [fst snd] in *. split; intros k Hk.
  - rewrite Hp, Z.bits_0 by lia. intuition discriminate.
  - rewrite Hs, Z.bits_0 by lia. intuition discriminate.
Qed.

Lemma elem_of_keys (flds : gmap Z (list byte)) f :
  f ∈ (map_to_list flds).*1 <-> is_Some (flds !! f).
Proof.
  rewrite list_elem_of_fmap. split.
  - intros ([g v] & -> & H%elem_of_map_to_list). eauto.
  - intros [v H]. exists (f, v). split; [reflexivity|].
    by apply elem_of_map_to_list.
Qed.

(** The secondary bitmap is non-zero exactly when a field above 64 is
    present. *)
Lemma bitsOf_secondary keys bm :
  Forall (fun f => 2 <= f <= 128) keys -> bitsOf keys bm ->
  bm.2 <> 0 <-> exists f, f ∈ keys /\ 64 < f.
Proof.
  intros HF [_ Hs]. split.
  - intros Hne.
    destruct (decide (Exists (fun f => 64 < f) keys)) as [He|Hn];
      [by apply Exists_exists in He|].
    rewrite Exists_exists in Hn. destruct Hne. apply Z.bits_inj'. intros k Hk. rewrite Z.bits_0.
    apply not_true_is_false. intros Hb. apply Hs in Hb as [? ?]; [|lia].
    apply Hn. exists (128 - k). split; [assumption|lia].
  - intros (f & Hin & Hf) H0.
    rewrite Forall_forall in HF. specialize (HF f Hin).
    assert (Hb : Z.testbit bm.2 (128 - f) = true).
    { apply Hs; [lia|]. split; [lia|]. by replace (128 - (128 - f)) with f by lia. }
    rewrite H0, Z.bits_0 in Hb. discriminate.
Qed.

Lemma bitsOf_primary_63 keys bm : bitsOf keys bm -> Z.testbit bm.1 63 = false.
Proof.
  intros [Hp _]. apply not_true_is_false. intros Hb.
  apply Hp in Hb; lia.
Qed.

Lemma bits_bounded a n :
  0 <= n -> (forall k, 0 <= k -> Z.testbit a k = true -> k < n) ->
  0 <= a < 2 ^ n.
Proof.
  intros Hn H. assert (E : a mod 2 ^ n = a).
  { apply Z.bits_inj'. intros k Hk. destruct (Z.lt_ge_cases k n).
    - apply Z.mod_pow2_bits_low. lia.
    - rewrite Z.mod_pow2_bits_high by lia. symmetry.
      apply not_true_is_false. intros Hb. apply H in Hb; lia. }
  rewrite <- E. apply Z.mod_pos_bound. apply Z.pow_pos_nonneg; lia.
Qed.

Lemma bitsOf_range keys bm :
  bitsOf keys bm -> 0 <= bm.1 < 2 ^ 63 /\ 0 <= bm.2 < 2 ^ 64.
Proof.
  intros [Hp Hs]. split; apply bits_bounded; try lia.
  - intros k Hk Hb. apply Hp in Hb; lia.
  - intros k Hk Hb. apply Hs in Hb; lia.
Qed.

(** *** The shape of what [Pack] returns *)

Lemma Pack_eq m bm :
  len (MTI m) = 4 -> buildBitmaps (keysOf m) (0, 0) = Ok bm ->
  Pack m =
  match packFields fieldNumbers (Fields m) [] with
  | Ok data => Ok (prependMLI (MTI m ++ bitmapBytes bm ++ data))
  | Err e => Err e
  | Panic => Panic
  end.
Proof.
  intros Hmti Hbm. unfold Pack, keysOf in *. rewrite Hmti, Hbm. cbn.
  destruct bm as [p s]. cbn [fst snd bitmapBytes].
  rewrite wrap64_bit by lia. unfold bitmapBytes. cbn [fst snd].
  rewrite packFields_prepend.
  destruct (s =? 0); cbn;
    destruct (packFields fieldNumbers (Fields m) []); cbn;
    rewrite <- ?app_assoc; try rewrite app_nil_l; reflexivity.
Qed.

Lemma Pack_Ok_inv m out :
  Pack m = Ok out ->
  len (MTI m) = 4 /\
  Forall (fun f => 2 <= f <= 128) (keysOf m) /\
  exists bm data,
    buildBitmaps (keysOf m) (0, 0) = Ok bm /\ bitsOf (keysOf m) bm /\
    packFields fieldNumbers (Fields m) [] = Ok data /\
    out = prependMLI (MTI m ++ bitmapBytes bm ++ data).
Proof.
  intros H.
  assert (Hmti : len (MTI m) = 4).
  { unfold Pack in H. destruct (Z.eqb_spec (len (MTI m)) 4); [assumption|].
    discriminate. }
  assert (HF : Forall (fun f => 2 <= f <= 128) (keysOf m)).
  { destruct (decide (Forall (fun f => 2 <= f <= 128) (keysOf m))) as [|Hn];
      [assumption|].
    unfold Pack in H. rewrite Hmti in H.
    fold (keysOf m) in H. rewrite (buildBitmaps_Err _ _ Hn) in H.
    discriminate. }
  split; [assumption|]. split; [assumption|].
  destruct (buildBitmaps_Ok _ HF) as (bm & Hbm & Hbits).
  rewrite (Pack_eq m bm Hmti Hbm) in H.
  destruct (packFields fieldNumbers (Fields m) []) as [data| |];
    try discriminate.
  injection H as <-. exists bm, data. auto.
Qed.

(** *** The length of the encoded fields *)

Lemma len_Sprintf0d_2 n : 0 <= n <= 99 -> len (Sprintf0d 2 n) = 2.
Proof. intros H. unfold len. by rewrite (proj1 (Sprintf0d_2_Atoi n H)). Qed.

Lemma len_Sprintf0d_3 n : 0 <= n <= 999 -> len (Sprintf0d 3 n) = 3.
Proof. intros H. unfold len. by rewrite (proj1 (Sprintf0d_3_Atoi n H)). Qed.

Lemma packField_len f v d :
  packField f v [] = Ok d -> len d <= fieldMax f.
Proof.
  unfold packField, fieldMax, packLLVAR, packLLLVAR.
  pose proof (len_nonneg v).
  repeat match goal with
  | |- context [?a =? ?b] => destruct (Z.eqb_spec a b); cbn [negb]
  | |- context [?a >? ?b] => destruct (Z.gtb_spec a b)
  end; intros [= <-]; rewrite ?app_nil_l, ?len_app,
    ?len_Sprintf0d_2, ?len_Sprintf0d_3 by lia; lia.
Qed.

Lemma packFields_len fs flds d :
  packFields fs flds [] = Ok d -> len d <= foldr Z.add 0 (fieldMax <$> fs).
Proof.
  revert d. induction fs as [|f fs IH]; intros d; cbn [packFields].
  - intros [= <-]. rewrite len_nil. reflexivity.
  - cbn [fmap list_fmap foldr].
    assert (0 <= fieldMax f).
    { unfold fieldMax.
      repeat match goal with
      | |- context [if ?c then _ else _] => destruct c
      end; lia. }
    destruct (flds !! f) as [v|].
    + intros (d1 & H1 & H2)%bind_Ok_inv.
      rewrite packFields_prepend in H2.
      destruct (packFields fs flds []) as [d2| |]; try discriminate.
      injection H2 as <-. apply packField_len in H1.
      specialize (IH d2 eq_refl). rewrite len_app. fold (fieldMax <$> fs). lia.
    + intros H1. apply IH in H1. fold (fieldMax <$> fs). lia.
Qed.

Lemma packFields_fieldNumbers_len flds d :
  packFields fieldNumbers flds [] = Ok d -> len d <= 1122.
Proof. intros H%packFields_len. exact H. Qed.

Lemma len_PutUint64 v : len (PutUint64 v) = 8.
Proof. reflexivity. Qed.

Lemma len_bitmapBytes bm : len (bitmapBytes bm) = if bm.2 =? 0 then 8 else 16.
Proof. unfold bitmapBytes. destruct (bm.2 =? 0); reflexivity. Qed.

Lemma Uint16_prependMLI msg :
  len msg < 2 ^ 16 ->
  Uint16 (take 2 (prependMLI msg)) = len msg /\
  len (prependMLI msg) = 2 + len msg.
Proof.
  intros H. pose proof (len_nonneg msg). unfold prependMLI, wrap16.
  rewrite Z.mod_small by lia. split.
  - cbn [PutUint16 app take]. rewrite <- (Uint16_PutUint16 (len msg) []) at 3 by lia.
    reflexivity.
  - rewrite len_app. reflexivity.
Qed.

(** *** The frame [Pack] returns *)

Lemma Pack_len_body m out :
  Pack m = Ok out ->
  exists body, out = prependMLI body /\ 12 <= len body <= 1142.
Proof.
  intros (Hmti & _ & bm & data & _ & _ & Hd & ->)%Pack_Ok_inv.
  eexists. split; [reflexivity|].
  apply packFields_fieldNumbers_len in Hd. pose proof (len_nonneg data).
  rewrite !len_app, len_bitmapBytes. destruct (bm.2 =? 0); lia.
Qed.

(** C6.  Whenever [Pack] succeeds, the first two bytes of its output, read as
    a big-endian unsigned 16-bit integer, are the length of the output
    minus 2. *)
Theorem Pack_MLI m out :
  Pack m = Ok out -> Uint16 (take 2 out) = len out - 2.
Proof.
  intros (body & -> & Hb)%Pack_len_body.
  destruct (Uint16_prependMLI body) as [H1 H2]; [lia|]. lia.
Qed.

Lemma Pack_MLI_witness :
  Pack echoRequest = Ok echoRequestFrame /\
  Uint16 (take 2 echoRequestFrame) = len echoRequestFrame - 2.
Proof.
  assert (H : Pack echoRequest = Ok echoRequestFrame)
    by (vm_compute; reflexivity).
  split; [exact H|]. exact (Pack_MLI echoRequest echoRequestFrame H).
Defined.

(** C7.  Whenever [Pack] succeeds, its output is the MLI, the MTI, the eight
    bytes of the primary bitmap, the secondary bitmap and the encoded fields;
    if a field above 64 is present, bit 1 of the primary bitmap (the most
    significant) is set and the secondary bitmap is eight bytes, not all
    zero; otherwise bit 1 is clear and the secondary bitmap is absent. *)
Theorem Pack_secondary_bitmap m out :
  Pack m = Ok out ->
  exists mli primary secondary data,
    out = mli ++ MTI m ++ primary ++ secondary ++ data /\
    length mli = 2%nat /\ length (MTI m) = 4%nat /\ length primary = 8%nat /\
    packFields fieldNumbers (Fields m) [] = Ok data /\
    ((exists f, 64 < f /\ is_Some (Fields m !! f)) ->
       Z.testbit (Uint64 primary) 63 = true /\
       length secondary = 8%nat /\ Uint64 secondary <> 0) /\
    (~ (exists f, 64 < f /\ is_Some (Fields m !! f)) ->
       Z.testbit (Uint64 primary) 63 = false /\ secondary = []).
Proof.
  intros (Hmti & HF & bm & data & _ & Hbits & Hd & ->)%Pack_Ok_inv.
  pose proof (bitsOf_range _ _ Hbits) as [Hp Hs].
  pose proof (bitsOf_secondary _ _ HF Hbits) as Hsec.
  pose proof (bitsOf_primary_63 _ _ Hbits) as H63.
  eexists (PutUint16 _), (PutUint64 _), (if bm.2 =? 0 then [] else PutUint64 bm.2), data.
  split; [unfold prependMLI, bitmapBytes; rewrite <- !app_assoc; reflexivity|].
  split; [reflexivity|]. split; [unfold len in Hmti; lia|].
  split; [reflexivity|]. split; [assumption|].
  split.
  - intros (f & Hf & Hin). assert (Hne : bm.2 <> 0).
    { apply Hsec. exists f. split; [by apply elem_of_keys|assumption]. }
    apply Z.eqb_neq in Hne as Hne'. rewrite Hne'.
    split; [|split; [reflexivity|by rewrite Uint64_PutUint64]].
    pose proof (lor_shiftl_add bm.1 1 63 ltac:(lia) Hp) as E.
    rewrite Z.shiftl_1_l in E.
    rewrite Uint64_PutUint64 by lia.
    rewrite lor_bit by lia. apply orb_true_r.
  - intros Hno. assert (E : bm.2 = 0).
    { destruct (decide (bm.2 = 0)) as [|Hne]; [assumption|].
      apply Hsec in Hne as (f & Hin%elem_of_keys & Hf). destruct Hno. eauto. }
    rewrite E. cbn [Z.eqb]. split; [|reflexivity].
    rewrite Uint64_PutUint64 by lia. exact H63.
Qed.

Lemma Pack_secondary_bitmap_witness :
  Pack echoRequest = Ok echoRequestFrame /\
  exists mli primary secondary data,
    echoRequestFrame = mli ++ MTI echoRequest ++ primary ++ secondary ++ data /\
    length secondary = 8%nat /\ Z.testbit (Uint64 primary) 63 = true.
Proof.
  assert (H : Pack echoRequest = Ok echoRequestFrame)
    by (vm_compute; reflexivity).
  split; [exact H|].
  destruct (Pack_secondary_bitmap echoRequest echoRequestFrame H)
    as (mli & primary & secondary & data & H1 & _ & _ & _ & _ & H2 & _).
  destruct H2 as (H3 & H4 & _).
  { exists 70. split; [lia|]. vm_compute. eauto. }
  exists mli, primary, secondary, data.
  split; [exact H1|]. split; assumption.
Defined.

(** The limits of the two helpers, and of [Pack] for the two variable-length
    fields it implements: [packLLVAR] accepts exactly the values of at most
    99 bytes and [packLLLVAR] exactly those of at most 999 bytes, and so
    does [Pack] for the LLVAR field 102 and the LLLVAR field 48. *)
Theorem pack_variable_length_limits :
  (forall buf v, isOk (packLLVAR buf v) = (len v <=? 99)) /\
  (forall buf v, isOk (packLLLVAR buf v) = (len v <=? 999)) /\
  (forall v, isOk (Pack (Set_ (New (bytes "0200")) 102 v)) = (len v <=? 99)) /\
  (forall v, isOk (Pack (Set_ (New (bytes "0200")) 48 v)) = (len v <=? 999)) /\
  isOk (Pack (Set_ (New (bytes "0200")) 102 (replicate 99 "1"%byte))) = true /\
  isOk (Pack (Set_ (New (bytes "0200")) 102 (replicate 100 "1"%byte))) = false /\
  isOk (Pack (Set_ (New (bytes "0200")) 48 (replicate 999 "A"%byte))) = true /\
  isOk (Pack (Set_ (New (bytes "0200")) 48 (replicate 1000 "A"%byte))) = false.
Proof.
  assert (H1 : forall buf v, isOk (packLLVAR buf v) = (len v <=? 99)).
  { intros buf v. unfold packLLVAR.
    destruct (Z.gtb_spec (len v) 99), (Z.leb_spec (len v) 99); try lia;
      reflexivity. }
  assert (H2 : forall buf v, isOk (packLLLVAR buf v) = (len v <=? 999)).
  { intros buf v. unfold packLLLVAR.
    destruct (Z.gtb_spec (len v) 999), (Z.leb_spec (len v) 999); try lia;
      reflexivity. }
  assert (H3 : forall v, isOk (Pack (Set_ (New (bytes "0200")) 102 v)) = (len v <=? 99)).
  { intros v. rewrite (Pack_eq _ (0, 2 ^ 26)).
    - cbn [Fields Set_ New]. rewrite insert_empty.
      rewrite packFields_singleton by apply NoDup_fieldNumbers.
      rewrite <- H1 with (buf := []). cbn.
      destruct (packLLVAR [] v); reflexivity.
    - reflexivity.
    - unfold keysOf. cbn [Fields Set_ New].
      rewrite insert_empty, map_to_list_singleton. reflexivity. }
  assert (H4 : forall v, isOk (Pack (Set_ (New (bytes "0200")) 48 v)) = (len v <=? 999)).
  { intros v. rewrite (Pack_eq _ (2 ^ 16, 0)).
    - cbn [Fields Set_ New]. rewrite insert_empty.
      rewrite packFields_singleton by apply NoDup_fieldNumbers.
      rewrite <- H2 with (buf := []). cbn.
      destruct (packLLLVAR [] v); reflexivity.
    - reflexivity.
    - unfold keysOf. cbn [Fields Set_ New].
      rewrite insert_empty, map_to_list_singleton. reflexivity. }
  repeat split; try assumption; rewrite ?H3, ?H4; reflexivity.
Qed.

(** C9.  [IsEchoResponse] holds exactly of the messages with MTI [0810],
    field 70 equal to [301] and field 11 present. *)
Theorem IsEchoResponse_iff m :
  IsEchoResponse m = true <->
  MTI m = bytes "0810" /\ Fields m !! 70 = Some (bytes "301") /\
  is_Some (Fields m !! 11).
Proof.
  unfold IsEchoResponse, Get.
  destruct (decide (MTI m = bytes "0810")) as [Hm|Hm].
  2:{ rewrite bool_decide_eq_false_2 by assumption. cbn. intuition discriminate. }
  rewrite bool_decide_eq_true_2 by assumption. cbn [negb].
  destruct (Fields m !! 70) as [v|]; cbn [negb orb].
  2:{ intuition discriminate. }
  destruct (decide (v = bytes "301")) as [->|Hv].
  2:{ rewrite bool_decide_eq_false_2 by assumption. cbn.
      split; [discriminate|]. intros (_ & [= ->] & _). by destruct Hv. }
  rewrite bool_decide_eq_true_2 by reflexivity. cbn [negb].
  destruct (Fields m !! 11) as [w|].
  - split; [eauto|reflexivity].
  - split; [discriminate|]. intros (_ & _ & [? [=]]).
Qed.

(** *** [unpackLLVAR], [unpackLLLVAR] and [unpackField] in closed form *)

Lemma unpackLLVAR_eq b off :
  0 <= off ->
  unpackLLVAR b off =
  if off + 2 >? len b then Err (ErrTruncatedLength LLVAR)
  else unpackVar 2 LLVAR b off.
Proof.
  intros Hoff. unfold unpackLLVAR, unpackVar.
  destruct (Z.gtb_spec (off + 2) (len b)); [reflexivity|].
  rewrite slice_Ok by lia. cbn.
  destruct (Atoi _) as [l|]; [|reflexivity].
  destruct (Z.gtb_spec (off + 2 + l) (len b)); [reflexivity|].
  destruct (Z.ltb_spec l 0).
  - rewrite slice_Panic by lia. reflexivity.
  - rewrite slice_Ok by lia. reflexivity.
Qed.

Lemma unpackLLLVAR_eq b off :
  0 <= off ->
  unpackLLLVAR b off =
  if off + 3 >? len b then Err (ErrTruncatedLength LLLVAR)
  else unpackVar 3 LLLVAR b off.
Proof.
  intros Hoff. unfold unpackLLLVAR, unpackVar.
  destruct (Z.gtb_spec (off + 3) (len b)); [reflexivity|].
  rewrite slice_Ok by lia. cbn.
  destruct (Atoi _) as [l|]; [|reflexivity].
  destruct (Z.gtb_spec (off + 3 + l) (len b)); [reflexivity|].
  destruct (Z.ltb_spec l 0).
  - rewrite slice_Panic by lia. reflexivity.
  - rewrite slice_Ok by lia. reflexivity.
Qed.

Lemma unpackVar_Ok w c b off v off' :
  unpackVar w c b off = Ok (v, off') ->
  exists l, Atoi (sub b off (off + w)) = Some l /\ 0 <= l /\
            off' = off + w + l /\ off' <= len b /\ v = sub b (off + w) off'.
Proof.
  unfold unpackVar. destruct (Atoi _) as [l|]; [|discriminate].
  destruct (Z.gtb_spec (off + w + l) (len b)); [discriminate|].
  destruct (Z.ltb_spec l 0); [discriminate|].
  intros [= <- <-]. exists l. auto.
Qed.

Lemma unpackField_eq f p off :
  0 <= off ->
  unpackField f p off =
  if f =? 7 then unpackFixed 7 10 p off
  else if f =? 11 then unpackFixed 11 6 p off
  else if f =? 48 then
    wrapDE 48 (if off + 3 >? len p then Err (ErrTruncatedLength LLLVAR)
               else unpackVar 3 LLLVAR p off)
  else if f =? 70 then unpackFixed 70 3 p off
  else if f =? 102 then
    wrapDE 102 (if off + 2 >? len p then Err (ErrTruncatedLength LLVAR)
                else unpackVar 2 LLVAR p off)
  else Err (ErrNotImplemented f).
Proof.
  intros Hoff. unfold unpackField, unpackFixed.
  rewrite unpackLLVAR_eq, unpackLLLVAR_eq by assumption.
  destruct (f =? 7); [|destruct (f =? 11); [|destruct (f =? 48);
    [|destruct (f =? 70); [|destruct (f =? 102)]]]]; cbv iota;
  try reflexivity;
  match goal with
  | |- context [?a >? ?b] =>
      destruct (Z.gtb_spec a b);
      [reflexivity|rewrite ?slice_Ok by lia; try reflexivity]
  end;
  match goal with
  | |- context [unpackVar ?w ?c ?p ?off] =>
      destruct (unpackVar w c p off); reflexivity
  end.
Qed.

Lemma wrapDE_Ok {A} de (r : result A) a : wrapDE de r = Ok a -> r = Ok a.
Proof. destruct r; cbn; congruence. Qed.

Lemma unpackFixed_Ok de n p off v off' :
  unpackFixed de n p off = Ok (v, off') ->
  off' = off + n /\ off' <= len p /\ v = sub p off off'.
Proof.
  unfold unpackFixed. destruct (Z.gtb_spec (off + n) (len p)); [discriminate|].
  intros [= <- <-]. auto.
Qed.

Ltac field_cases f :=
  destruct (Z.eqb_spec f 7) as [->|?];
  [|destruct (Z.eqb_spec f 11) as [->|?];
    [|destruct (Z.eqb_spec f 48) as [->|?];
      [|destruct (Z.eqb_spec f 70) as [->|?];
        [|destruct (Z.eqb_spec f 102) as [->|?]]]]].

Lemma unpackField_implemented f p off r :
  0 <= off -> unpackField f p off = Ok r -> implemented f = true.
Proof.
  intros Hoff. rewrite unpackField_eq by assumption. unfold implemented.
  field_cases f; try reflexivity.
  repeat match goal with H : _ <> _ |- _ => apply Z.eqb_neq in H; rewrite H; clear H end.
  discriminate.
Qed.

(** *** Length prefixes made of digits *)

(** One field: what [unpackField] reads, [packField] writes back, if the
    length prefix is made of digits. *)
Lemma unpackField_packField f p off v off' :
  0 <= off -> unpackField f p off = Ok (v, off') ->
  forallb isDigit (lengthPrefix f p off) = true ->
  off <= off' <= len p /\ packField f v [] = Ok (sub p off off').
Proof.
  intros Hoff. rewrite unpackField_eq by assumption.
  unfold lengthPrefix, packField. field_cases f; cbn [Z.eqb Pos.eqb].
  - intros (-> & ? & ->)%unpackFixed_Ok _. split; [lia|].
    rewrite len_sub by lia. replace (off + 10 - off =? 10) with true by lia.
    reflexivity.
  - intros (-> & ? & ->)%unpackFixed_Ok _. split; [lia|].
    rewrite len_sub by lia. replace (off + 6 - off =? 6) with true by lia.
    reflexivity.
  - intros H%wrapDE_Ok Hd.
    destruct (Z.gtb_spec (off + 3) (len p)); [discriminate|].
    apply unpackVar_Ok in H as (l & Ha & Hl & -> & Hle & ->).
    apply Atoi_3_digits in Ha as [Hl9 Hs]; [|unfold len in *|assumption].
    2:{ unfold sub. rewrite length_take, length_drop. lia. }
    split; [lia|]. unfold packLLLVAR. rewrite len_sub by lia.
    replace (off + 3 + l - (off + 3)) with l by lia.
    destruct (Z.gtb_spec l 999); [lia|]. rewrite Hs. cbn.
    rewrite <- sub_split by lia. reflexivity.
  - intros (-> & ? & ->)%unpackFixed_Ok _. split; [lia|].
    rewrite len_sub by lia. replace (off + 3 - off =? 3) with true by lia.
    reflexivity.
  - intros H%wrapDE_Ok Hd.
    destruct (Z.gtb_spec (off + 2) (len p)); [discriminate|].
    apply unpackVar_Ok in H as (l & Ha & Hl & -> & Hle & ->).
    apply Atoi_2_digits in Ha as [Hl9 Hs]; [|unfold len in *|assumption].
    2:{ unfold sub. rewrite length_take, length_drop. lia. }
    split; [lia|]. unfold packLLVAR. rewrite len_sub by lia.
    replace (off + 2 + l - (off + 2)) with l by lia.
    destruct (Z.gtb_spec l 99); [lia|]. rewrite Hs. cbn.
    rewrite <- sub_split by lia. reflexivity.
  - discriminate.
Qed.

(** *** The walk of [Unpack] over the field numbers *)

Section Walk.

Context (p : list byte) (prim sec : Z).

Lemma unpackFields_cons f fs off flds :
  unpackFields (f :: fs) p prim sec off flds =
  if present prim sec f then
    '(v, off') ← unpackField f p off;
    unpackFields fs p prim sec off' (<[f := v]> flds)
  else unpackFields fs p prim sec off flds.
Proof. cbn [unpackFields]. destruct (present prim sec f); reflexivity. Qed.

(** The fields of the result: those whose bit is set, all of them
    implemented, on top of the fields the walk started with. *)
Lemma unpackFields_lookup fs off flds off' flds' :
  0 <= off ->
  unpackFields fs p prim sec off flds = Ok (off', flds') ->
  off <= off' /\
  (forall g, g ∈ fs -> present prim sec g = true ->
     implemented g = true /\ is_Some (flds' !! g)) /\
  (forall g, ~ (g ∈ fs /\ present prim sec g = true) -> flds' !! g = flds !! g).
Proof.
  revert off flds. induction fs as [|f fs IH]; intros off flds Hoff.
  - cbn. intros [= <- <-]. split; [lia|]. split; [|reflexivity].
    intros g Hg. by apply elem_of_nil in Hg.
  - rewrite unpackFields_cons. destruct (present prim sec f) eqn:Hp.
    + intros ([v off1] & Hf & Hrest)%bind_Ok_inv.
      pose proof (unpackField_implemented _ _ _ _ Hoff Hf) as Himp.
      assert (Hoff1 : off <= off1).
      { rewrite unpackField_eq in Hf by assumption. unfold implemented in Himp.
        field_cases f; cbn [Z.eqb Pos.eqb] in Hf;
          try (apply unpackFixed_Ok in Hf; lia);
          try (apply wrapDE_Ok in Hf;
               destruct (_ >? _); [discriminate|];
               apply unpackVar_Ok in Hf as (l & _ & ? & -> & _); lia).
        repeat match goal with
               | H : _ <> _ |- _ => apply Z.eqb_neq in H; rewrite H in Himp; clear H
               end. discriminate. }
      apply IH in Hrest as (Hle & Hin & Hout); [|lia].
      split; [lia|]. split.
      * intros g [->|Hg]%elem_of_cons Hpg; [|by apply Hin].
        split; [assumption|].
        destruct (decide (f ∈ fs /\ present prim sec f = true)) as [[Hg _]|Hn].
        -- by apply Hin.
        -- rewrite (Hout _ Hn), lookup_insert_eq. eauto.
      * intros g Hn. rewrite Hout.
        -- apply lookup_insert_ne. intros ->. apply Hn. split; [left|assumption].
        -- intros [Hg Hpg]. apply Hn. split; [by right|assumption].
    + intros Hrest. apply IH in Hrest as (Hle & Hin & Hout); [|lia].
      split; [lia|]. split.
      * intros g [->|Hg]%elem_of_cons Hpg; [congruence|by apply Hin].
      * intros g Hn. apply Hout. intros [Hg Hpg]. apply Hn.
        split; [by right|assumption].
Qed.

(** What the walk of [Unpack] reads, the walk of [Pack] writes back. *)
Lemma unpackFields_packFields fs :
  NoDup fs ->
  forall off flds off' flds',
  0 <= off <= len p ->
  (forall g, g ∈ fs -> flds !! g = None) ->
  unpackFields fs p prim sec off flds = Ok (off', flds') ->
  plainPrefixes fs p prim sec off = true ->
  off <= off' <= len p /\ packFields fs flds' [] = Ok (sub p off off').
Proof.
  induction 1 as [|f fs Hf Hnd IH]; intros off flds off' flds' Hoff Hnone.
  - cbn [unpackFields plainPrefixes packFields]. intros [= <- <-] _.
    rewrite sub_nil. split; [lia|reflexivity].
  - rewrite unpackFields_cons. cbn [plainPrefixes packFields].
    destruct (present prim sec f) eqn:Hp; cbn [negb].
    + intros ([v off1] & Hu & Hrest)%bind_Ok_inv. rewrite Hu.
      intros [Hd Hpl]%andb_true_iff.
      destruct (unpackField_packField _ _ _ _ _ (proj1 Hoff) Hu Hd) as [H1 Hpk].
      assert (Hoff1 : 0 <= off1) by lia.
      pose proof (unpackFields_lookup _ _ _ _ _ Hoff1 Hrest)
        as (_ & _ & Hout).
      rewrite Hout, lookup_insert_eq by (intros [? _]; contradiction).
      rewrite Hpk. cbn.
      destruct (IH off1 (<[f:=v]> flds) off' flds') as [H2 Hrec]; try assumption.
      { lia. }
      { intros g Hg. rewrite lookup_insert_ne by (intros ->; contradiction).
        apply Hnone. by right. }
      split; [lia|].
      rewrite packFields_prepend, Hrec. cbn.
      rewrite <- sub_split by lia. reflexivity.
    + intros Hrest Hpl.
      pose proof (unpackFields_lookup _ _ _ _ _ (proj1 Hoff) Hrest)
        as (_ & _ & Hout).
      rewrite Hout by (intros [? _]; contradiction).
      rewrite Hnone by left.
      apply (IH off flds off' flds'); try assumption.
      intros g Hg. apply Hnone. by right.
Qed.

End Walk.

(** *** [Unpack] on the payload *)

Lemma Unpack_payload b :
  2 <= len b -> 2 + Uint16 (sub b 0 2) <= len b ->
  Unpack b = unpackPayload (sub b 2 (2 + Uint16 (sub b 0 2))).
Proof.
  intros H2 Hmli. unfold Unpack, unpackPayload.
  destruct (Z.ltb_spec (len b) 2); [lia|].
  rewrite slice_Ok by lia. cbn [mbind result_bind].
  pose proof (Uint16_range (sub b 0 2)) as Hr.
  set (mli := Uint16 (sub b 0 2)) in *.
  destruct (Z.ltb_spec (len b - 2) mli); [lia|].
  rewrite slice_Ok by lia. cbn [mbind result_bind].
  set (p := sub b 2 (2 + mli)).
  destruct (Z.ltb_spec (len p) 12); [reflexivity|].
  rewrite (slice_Ok p 0 4), (slice_Ok p 4 12) by lia. cbn [mbind result_bind].
  rewrite wrap64_bit, land_bit_eqb, negb_involutive by lia.
  destruct (Z.testbit (Uint64 (sub p 4 12)) 63); [|reflexivity].
  replace (12 + 8) with 20 by lia.
  destruct (Z.ltb_spec (len p) 20); [reflexivity|].
  rewrite slice_Ok by lia. reflexivity.
Qed.

Lemma Unpack_short b : len b < 2 -> Unpack b = Err ErrShortMLI.
Proof.
  intros H. unfold Unpack. destruct (Z.ltb_spec (len b) 2); [reflexivity|lia].
Qed.

Lemma Unpack_incomplete b :
  2 <= len b -> len b - 2 < Uint16 (sub b 0 2) ->
  Unpack b = Err (ErrIncomplete (Uint16 (sub b 0 2)) (len b - 2)).
Proof.
  intros H2 H. unfold Unpack. destruct (Z.ltb_spec (len b) 2); [lia|].
  rewrite slice_Ok by lia. cbn [mbind result_bind].
  destruct (Z.ltb_spec (len b - 2) (Uint16 (sub b 0 2))); [reflexivity|lia].
Qed.

Lemma Unpack_Ok_payload b m :
  Unpack b = Ok m ->
  2 <= len b /\ 2 + Uint16 (sub b 0 2) <= len b /\
  unpackPayload (sub b 2 (2 + Uint16 (sub b 0 2))) = Ok m.
Proof.
  intros H. destruct (Z.lt_ge_cases (len b) 2).
  { rewrite Unpack_short in H by assumption. discriminate. }
  destruct (Z.lt_ge_cases (len b - 2) (Uint16 (sub b 0 2))).
  { rewrite Unpack_incomplete in H by lia. discriminate. }
  rewrite Unpack_payload in H by lia. auto with lia.
Qed.

Lemma unpackPayload_Ok p m :
  unpackPayload p = Ok m ->
  exists sec off,
    12 <= len p /\ MTI m = sub p 0 4 /\
    (if Z.testbit (Uint64 (sub p 4 12)) 63
     then 20 <= len p /\ sec = Uint64 (sub p 12 20) /\ off = 20
     else sec = 0 /\ off = 12) /\
    unpackFields fieldNumbers p (Uint64 (sub p 4 12)) sec off ∅ =
      Ok (len p, Fields m).
Proof.
  unfold unpackPayload. destruct (Z.ltb_spec (len p) 12); [discriminate|].
  cbv zeta. intros ([sec off] & Hsec & H1)%bind_Ok_inv.
  apply bind_Ok_inv in H1 as ([off' flds] & Hw & H1).
  destruct (Z.eqb_spec off' (len p)) as [->|]; [|discriminate].
  injection H1 as <-. exists sec, off. cbn [MTI Fields].
  split; [assumption|]. split; [reflexivity|]. split; [|assumption].
  destruct (Z.testbit (Uint64 (sub p 4 12)) 63).
  - destruct (Z.ltb_spec (len p) 20); [discriminate|].
    injection Hsec as <- <-. auto.
  - injection Hsec as <- <-. auto.
Qed.

(** *** Canonical frames *)

Lemma bits_eq a b :
  (forall k, 0 <= k -> Z.testbit a k = true <-> Z.testbit b k = true) -> a = b.
Proof.
  intros H. apply Z.bits_inj'. intros k Hk. apply eq_true_iff_eq, H, Hk.
Qed.

Lemma testbit_high a n k : 0 <= a < 2 ^ n -> n <= k -> Z.testbit a k = false.
Proof.
  intros Ha Hk. destruct (Z.lt_ge_cases n 0).
  { rewrite Z.pow_neg_r in Ha; lia. }
  rewrite <- (Z.mod_small a (2 ^ n)) by lia.
  apply Z.mod_pow2_bits_high. lia.
Qed.

(** The bitmaps [Pack] builds from the fields [Unpack] returned are the
    bitmaps [Unpack] read, but for bit 1 of the primary. *)
Lemma bitsOf_unpacked (flds : gmap Z (list byte)) prim sec bm :
  0 <= prim < 2 ^ 64 -> 0 <= sec < 2 ^ 64 ->
  (forall g, is_Some (flds !! g) <->
             g ∈ fieldNumbers /\ present prim sec g = true) ->
  bitsOf (map_to_list flds).*1 bm ->
  (forall k, 0 <= k -> k <> 63 -> Z.testbit bm.1 k = Z.testbit prim k) /\
  bm.2 = sec.
Proof.
  intros Hp Hs Hflds [H1 H2]. split.
  - intros k Hk Hne. apply eq_true_iff_eq. rewrite H1 by assumption.
    rewrite elem_of_keys, Hflds, elem_of_fieldNumbers.
    destruct (Z.le_gt_cases k 62).
    + rewrite present_low by lia. replace (64 - (64 - k)) with k by lia.
      intuition lia.
    + rewrite (testbit_high prim 64 k) by lia. intuition (lia || discriminate).
  - apply bits_eq. intros k Hk. rewrite H2 by assumption.
    rewrite elem_of_keys, Hflds, elem_of_fieldNumbers.
    destruct (Z.le_gt_cases k 63).
    + rewrite present_high by lia. replace (128 - (128 - k)) with k by lia.
      intuition lia.
    + rewrite (testbit_high sec 64 k) by lia. intuition (lia || discriminate).
Qed.

Lemma unpacked_fields p prim sec off m :
  0 <= off ->
  unpackFields fieldNumbers p prim sec off ∅ = Ok (len p, Fields m) ->
  forall g, is_Some (Fields m !! g) <->
            g ∈ fieldNumbers /\ present prim sec g = true.
Proof.
  intros Hoff (_ & Hin & Hout)%unpackFields_lookup; [|assumption].
  intros g. split.
  - intros Hs.
    destruct (decide (g ∈ fieldNumbers)) as [Hg|Hg];
      [destruct (present prim sec g) eqn:Hp; [auto|]|].
    + rewrite Hout, lookup_empty in Hs by (intros [_ ?]; congruence).
      by apply is_Some_None in Hs.
    + rewrite Hout, lookup_empty in Hs by (intros [? _]; contradiction).
      by apply is_Some_None in Hs.
  - intros [Hg Hp]. by apply Hin.
Qed.

Lemma PutUint16_Uint16_sub b :
  2 <= len b -> PutUint16 (Uint16 (sub b 0 2)) = sub b 0 2.
Proof.
  intros H. destruct b as [|b0 [|b1 l]]; try (unfold len in H; cbn in H; lia).
  change (sub (b0 :: b1 :: l) 0 2) with [b0; b1]. apply PutUint16_Uint16.
Qed.

Lemma length_sub b lo hi :
  0 <= lo <= hi -> hi <= len b -> length (sub b lo hi) = Z.to_nat (hi - lo).
Proof. intros H1 H2. pose proof (len_sub b lo hi H1 H2). unfold len in *. lia. Qed.

(** C3, as the code has it.  A frame that [Unpack] accepts and that is
    canonical (it ends where its MLI says, bit 1 of its primary bitmap is set
    only in front of a non-zero secondary bitmap, and its LLVAR/LLLVAR length
    prefixes are decimal digits) is reproduced byte for byte by [Pack]. *)
Theorem Pack_Unpack_canonical b m :
  Unpack b = Ok m -> canonical b = true -> Pack m = Ok b.
Proof.
  intros (H2 & Hmli & Hp)%Unpack_Ok_payload Hc.
  unfold canonical in Hc. cbv zeta in Hc.
  apply andb_true_iff in Hc as [[Hlen%Z.eqb_eq Hsec]%andb_true_iff Hpl].
  rewrite <- Hlen in Hp. set (p := sub b 2 (len b)) in *.
  assert (Hlp : len p = len b - 2) by (apply len_sub; lia).
  apply unpackPayload_Ok in Hp as (sec & off & H12 & Hmti & Hcase & Hw).
  set (prim := Uint64 (sub p 4 12)) in *.
  pose proof (Uint64_range (sub p 4 12)) as Hprim. fold prim in Hprim.
  assert (Hoff : off = (if Z.testbit prim 63 then 20 else 12) /\
                 12 <= off <= len p /\ 0 <= sec < 2 ^ 64 /\
                 sec = (if Z.testbit prim 63 then Uint64 (sub p 12 20) else 0)).
  { destruct (Z.testbit prim 63).
    - destruct Hcase as (? & -> & ->).
      pose proof (Uint64_range (sub p 12 20)). auto with lia.
    - destruct Hcase as (-> & ->). auto with lia. }
  destruct Hoff as (Hoff & Hoffr & Hsecr & Hsecv).
  rewrite <- Hsecv, <- Hoff in Hpl. rewrite <- Hsecv in Hsec.
  assert (Hoff0 : 0 <= off) by lia.
  pose proof (unpacked_fields _ _ _ _ _ Hoff0 Hw) as Hflds.
  assert (HF : Forall (fun f => 2 <= f <= 128) (keysOf m)).
  { apply Forall_forall. intros f Hf%elem_of_keys%Hflds.
    apply elem_of_fieldNumbers, Hf. }
  destruct (buildBitmaps_Ok _ HF) as (bm & Hbm & Hbits).
  assert (Hm4 : len (MTI m) = 4) by (rewrite Hmti; apply len_sub; lia).
  rewrite (Pack_eq m bm Hm4 Hbm).
  destruct (unpackFields_packFields p prim sec fieldNumbers NoDup_fieldNumbers
              off ∅ (len p) (Fields m)) as [_ ->]; try assumption.
  { lia. }
  { intros g _. apply lookup_empty. }
  destruct (bitsOf_unpacked _ _ _ _ Hprim Hsecr Hflds Hbits) as [Hb1 Hb2].
  pose proof (bitsOf_primary_63 _ _ Hbits) as H63.
  pose proof (bitsOf_range _ _ Hbits) as [Hr1 _].
  assert (Hbytes : bitmapBytes bm = sub p 4 off).
  { unfold bitmapBytes. rewrite Hb2. destruct (Z.testbit prim 63) eqn:E63.
    - cbn in Hsec. apply negb_true_iff in Hsec. rewrite Hsec.
      subst off. rewrite (sub_split p 4 12 20) by lia. f_equal.
      + replace (Z.lor bm.1 (2 ^ 63)) with prim.
        { apply PutUint64_Uint64, length_sub; lia. }
        apply bits_eq. intros k Hk. rewrite lor_bit by lia.
        destruct (Z.eqb_spec 63 k) as [<-|Hne].
        * rewrite E63, orb_true_r. tauto.
        * rewrite orb_false_r, Hb1 by lia. tauto.
      + rewrite Hsecv. apply PutUint64_Uint64, length_sub; lia.
    - subst sec off. cbn [Z.eqb]. rewrite app_nil_r.
      replace bm.1 with prim.
      { apply PutUint64_Uint64, length_sub; lia. }
      apply bits_eq. intros k Hk. destruct (Z.eq_dec k 63) as [->|Hne].
      + rewrite E63, H63. tauto.
      + rewrite Hb1 by lia. tauto. }
  rewrite Hbytes, Hmti. f_equal.
  rewrite <- !sub_split by lia. rewrite sub_all.
  unfold prependMLI. rewrite Hlp.
  pose proof (Uint16_range (sub b 0 2)).
  replace (len b - 2) with (Uint16 (sub b 0 2)) by lia.
  unfold wrap16. rewrite Z.mod_small by lia.
  rewrite PutUint16_Uint16_sub by lia.
  unfold p. rewrite <- sub_split by lia. apply sub_all.
Qed.

(** *** Bytes after the fields *)

Lemma unpackField_advance f p off v off' :
  0 <= off -> unpackField f p off = Ok (v, off') -> off <= off' <= len p.
Proof.
  intros Hoff. rewrite unpackField_eq by assumption.
  destruct (f =? 7); [|destruct (f =? 11); [|destruct (f =? 48);
    [|destruct (f =? 70); [|destruct (f =? 102)]]]];
  try (intros H%unpackFixed_Ok; lia); try discriminate;
  intros H%wrapDE_Ok; destruct (_ >? _); try discriminate;
  apply unpackVar_Ok in H as (l & _ & ? & -> & ? & _); lia.
Qed.

Lemma unpackFixed_app de n p x off r :
  0 <= off -> 0 <= n ->
  unpackFixed de n p off = Ok r -> unpackFixed de n (p ++ x) off = Ok r.
Proof.
  intros Hoff Hn. unfold unpackFixed. pose proof (len_nonneg x).
  destruct (Z.gtb_spec (off + n) (len p)); [discriminate|]. intros <-.
  rewrite len_app. destruct (Z.gtb_spec (off + n) (len p + len x)); [lia|].
  rewrite sub_app_l by lia. reflexivity.
Qed.

Lemma unpackVar_app w c p x off r :
  0 <= off -> 0 <= w -> off + w <= len p ->
  unpackVar w c p off = Ok r -> unpackVar w c (p ++ x) off = Ok r.
Proof.
  intros Hoff Hw Hle. unfold unpackVar. pose proof (len_nonneg x).
  rewrite sub_app_l by lia. destruct (Atoi _) as [l|]; [|discriminate].
  destruct (Z.gtb_spec (off + w + l) (len p)); [discriminate|].
  destruct (Z.ltb_spec l 0); [discriminate|]. intros <-.
  rewrite len_app. destruct (Z.gtb_spec (off + w + l) (len p + len x)); [lia|].
  rewrite sub_app_l by lia. reflexivity.
Qed.

(** Bytes appended to the payload do not change what a field reads. *)
Lemma unpackField_app f p x off r :
  0 <= off -> unpackField f p off = Ok r -> unpackField f (p ++ x) off = Ok r.
Proof.
  intros Hoff. rewrite !unpackField_eq by assumption.
  pose proof (len_nonneg x). rewrite len_app.
  destruct (f =? 7); [|destruct (f =? 11); [|destruct (f =? 48);
    [|destruct (f =? 70); [|destruct (f =? 102)]]]];
  try (apply unpackFixed_app; lia); try discriminate;
  intros Hr%wrapDE_Ok;
  match goal with
  | Hr : (if ?a >? ?b then _ else _) = _ |- _ =>
      destruct (Z.gtb_spec a b); [discriminate|]
  end;
  match goal with
  | |- context [?a >? ?b] => destruct (Z.gtb_spec a b); [lia|]
  end;
  apply (unpackVar_app _ _ _ x) in Hr; try lia; rewrite Hr; reflexivity.
Qed.

Lemma unpackFields_app fs p x prim sec off flds r :
  0 <= off ->
  unpackFields fs p prim sec off flds = Ok r ->
  unpackFields fs (p ++ x) prim sec off flds = Ok r.
Proof.
  revert off flds. induction fs as [|f fs IH]; intros off flds Hoff.
  - trivial.
  - rewrite !unpackFields_cons. destruct (present prim sec f); [|by apply IH].
    intros ([v off1] & Hu & Hrest)%bind_Ok_inv.
    rewrite (unpackField_app _ _ x _ _ Hoff Hu). cbn.
    apply unpackField_advance in Hu; [|assumption]. apply IH; [lia|assumption].
Qed.

Lemma Unpack_prependMLI q t :
  len q < 2 ^ 16 -> Unpack (prependMLI q ++ t) = unpackPayload q.
Proof.
  intros Hq. pose proof (len_nonneg q). pose proof (len_nonneg t).
  assert (H2 : sub (prependMLI q ++ t) 0 2 = PutUint16 (len q)).
  { unfold prependMLI, wrap16. rewrite Z.mod_small by lia. reflexivity. }
  assert (Hl : len (prependMLI q ++ t) = 2 + len q + len t).
  { unfold prependMLI. rewrite !len_app. reflexivity. }
  assert (Hu : Uint16 (sub (prependMLI q ++ t) 0 2) = len q).
  { rewrite H2, <- (app_nil_r (PutUint16 _)). apply Uint16_PutUint16. lia. }
  rewrite Unpack_payload by (rewrite ?Hu; lia). rewrite Hu.
  f_equal. unfold prependMLI. rewrite <- app_assoc.
  change 2 with (len (PutUint16 (wrap16 (len q)))) at 1 2.
  rewrite <- (Z.add_0_r (len (PutUint16 _))) at 1.
  rewrite sub_app_r by lia. rewrite sub_app_l by lia. apply sub_all.
Qed.

(** C4, as the code has it.  If a frame is accepted, the frame whose
    payload is the same bytes followed by further bytes, with the MLI
    counting them, is rejected with [extra bytes at end]; bytes that follow
    the frame, beyond offset [2 + MLI], are ignored. *)
Theorem Unpack_extra_bytes q m c x t :
  Unpack (prependMLI q) = Ok m -> len q + 1 + len x < 2 ^ 16 ->
  Unpack (prependMLI (q ++ c :: x)) = Err (ErrExtraBytes (1 + len x)) /\
  Unpack (prependMLI q ++ t) = Ok m.
Proof.
  intros Hu Hlen. pose proof (len_nonneg q). pose proof (len_nonneg x).
  rewrite <- (app_nil_r (prependMLI q)), Unpack_prependMLI in Hu by lia.
  split; [|rewrite Unpack_prependMLI by lia; exact Hu].
  rewrite <- (app_nil_r (prependMLI _)), Unpack_prependMLI
    by (rewrite len_app, len_cons; lia).
  apply unpackPayload_Ok in Hu as (sec & off & H12 & _ & Hcase & Hw).
  unfold unpackPayload. rewrite len_app, len_cons.
  destruct (Z.ltb_spec (len q + (1 + len x)) 12); [lia|]. cbv zeta.
  rewrite (sub_app_l q _ 4 12) by lia.
  assert (Hoff : 0 <= off) by (destruct (Z.testbit _ 63); lia).
  apply (unpackFields_app _ _ (c :: x)) in Hw; [|assumption].
  destruct (Z.testbit (Uint64 (sub q 4 12)) 63).
  - destruct Hcase as (? & -> & ->).
    destruct (Z.ltb_spec (len q + (1 + len x)) 20); [lia|].
    rewrite (sub_app_l q _ 12 20) by lia. cbn [mbind result_bind].
    rewrite Hw. cbn [mbind result_bind].
    destruct (Z.eqb_spec (len q) (len q + (1 + len x))); [lia|]. cbn.
    f_equal. f_equal. lia.
  - destruct Hcase as (-> & ->). cbn [mbind result_bind].
    rewrite Hw. cbn [mbind result_bind].
    destruct (Z.eqb_spec (len q) (len q + (1 + len x))); [lia|]. cbn.
    f_equal. f_equal. lia.
Qed.

(** Whatever follows the declared end of a frame is not looked at. *)
Lemma Unpack_trailing b t :
  2 <= len b -> 2 + Uint16 (sub b 0 2) <= len b -> Unpack (b ++ t) = Unpack b.
Proof.
  intros H2 Hmli. pose proof (len_nonneg t).
  pose proof (Uint16_range (sub b 0 2)).
  assert (E : sub (b ++ t) 0 2 = sub b 0 2) by (apply sub_app_l; lia).
  rewrite !Unpack_payload; rewrite ?E, ?len_app; try lia.
  rewrite sub_app_l by lia. reflexivity.
Qed.

(** *** [Unpack] after [Pack] *)

Lemma sub_app_inv p off d1 d2 :
  0 <= off -> off + len d1 + len d2 <= len p ->
  sub p off (off + len (d1 ++ d2)) = d1 ++ d2 ->
  sub p off (off + len d1) = d1 /\
  sub p (off + len d1) (off + len d1 + len d2) = d2.
Proof.
  intros Hoff Hle. pose proof (len_nonneg d1). pose proof (len_nonneg d2).
  rewrite len_app, (sub_split p off (off + len d1)) by lia.
  replace (off + (len d1 + len d2)) with (off + len d1 + len d2) by lia.
  intros E. apply app_inj_1 in E; [exact E|].
  rewrite length_sub by lia. unfold len. lia.
Qed.

(** One field: what [packField] writes, [unpackField] reads back. *)
Lemma packField_unpackField f v d p off :
  0 <= off -> off + len d <= len p ->
  packField f v [] = Ok d -> sub p off (off + len d) = d ->
  unpackField f p off = Ok (v, off + len d).
Proof.
  intros Hoff Hle. rewrite unpackField_eq by assumption.
  unfold packField, packLLVAR, packLLLVAR, unpackFixed.
  pose proof (len_nonneg v).
  destruct (f =? 7); [|destruct (f =? 11); [|destruct (f =? 48);
    [|destruct (f =? 70); [|destruct (f =? 102)]]]]; cbv iota;
    try discriminate.
  1,2,4:
    match goal with
    | |- context [negb (?a =? ?n)] => destruct (Z.eqb_spec a n)
    end; try discriminate; cbn [negb app]; intros [= <-] Hs;
    match goal with
    | |- context [?a >? ?b] => destruct (Z.gtb_spec a b); [lia|]
    end; congruence.
  - destruct (Z.gtb_spec (len v) 999); [discriminate|].
    cbn [app]. intros [= <-]. destruct (Sprintf0d_3_Atoi (len v)) as [Hl Ha]; [lia|].
    assert (Hl' : len (Sprintf0d 3 (len v)) = 3) by (apply len_Sprintf0d_3; lia).
    intros [H1 H2]%sub_app_inv; [|assumption|rewrite len_app in Hle; lia].
    rewrite len_app, Hl' in *.
    destruct (Z.gtb_spec (off + 3) (len p)); [lia|]. unfold unpackVar.
    rewrite H1, Ha. destruct (Z.gtb_spec (off + 3 + len v) (len p)); [lia|].
    destruct (Z.ltb_spec (len v) 0); [lia|]. cbn. rewrite H2.
    do 2 f_equal. lia.
  - destruct (Z.gtb_spec (len v) 99); [discriminate|].
    cbn [app]. intros [= <-]. destruct (Sprintf0d_2_Atoi (len v)) as [Hl Ha]; [lia|].
    assert (Hl' : len (Sprintf0d 2 (len v)) = 2) by (apply len_Sprintf0d_2; lia).
    intros [H1 H2]%sub_app_inv; [|assumption|rewrite len_app in Hle; lia].
    rewrite len_app, Hl' in *.
    destruct (Z.gtb_spec (off + 2) (len p)); [lia|]. unfold unpackVar.
    rewrite H1, Ha. destruct (Z.gtb_spec (off + 2 + len v) (len p)); [lia|].
    destruct (Z.ltb_spec (len v) 0); [lia|]. cbn. rewrite H2.
    do 2 f_equal. lia.
Qed.

(** What the walk of [Pack] writes, the walk of [Unpack] reads back, when
    the bitmaps mark exactly the fields of the message. *)
Lemma packFields_unpackFields fs (F : gmap Z (list byte)) p prim sec :
  NoDup fs ->
  (forall g, g ∈ fs -> present prim sec g = true <-> is_Some (F !! g)) ->
  forall d off flds,
  0 <= off -> off + len d <= len p ->
  (forall g, g ∈ fs -> flds !! g = None) ->
  packFields fs F [] = Ok d -> sub p off (off + len d) = d ->
  exists flds',
    unpackFields fs p prim sec off flds = Ok (off + len d, flds') /\
    (forall g, g ∈ fs -> flds' !! g = F !! g) /\
    (forall g, g ∉ fs -> flds' !! g = flds !! g).
Proof.
  induction 1 as [|f fs Hf Hnd IH]; intros Hpres d off flds Hoff Hle Hnone.
  - cbn [packFields unpackFields]. intros [= <-] _. exists flds.
    rewrite len_nil, Z.add_0_r. split; [reflexivity|]. split; [|reflexivity].
    intros g Hg. by apply elem_of_nil in Hg.
  - rewrite unpackFields_cons. cbn [packFields].
    assert (Hpres' : forall g, g ∈ fs ->
              present prim sec g = true <-> is_Some (F !! g)).
    { intros g Hg. apply Hpres. by right. }
    destruct (F !! f) as [v|] eqn:EF.
    + rewrite (proj2 (Hpres f ltac:(left))) by eauto.
      intros (d1 & H1 & H2)%bind_Ok_inv. rewrite packFields_prepend in H2.
      destruct (packFields fs F []) as [d2| |] eqn:E2; try discriminate.
      injection H2 as <-. rewrite len_app in Hle.
      pose proof (len_nonneg d1). pose proof (len_nonneg d2).
      intros [Hs1 Hs2]%sub_app_inv; [|assumption|lia].
      rewrite (packField_unpackField f v d1 p off) by (assumption || lia).
      cbn [mbind result_bind].
      assert (Hnone' : forall g, g ∈ fs -> <[f:=v]> flds !! g = None).
      { intros g Hg. rewrite lookup_insert_ne by (intros ->; contradiction).
        apply Hnone. by right. }
      destruct (IH Hpres' d2 (off + len d1) (<[f:=v]> flds))
        as (flds' & Hu & Hin & Hout); try assumption; try reflexivity;
        try lia.
      exists flds'. rewrite len_app, Z.add_assoc. split; [exact Hu|]. split.
      * intros g [->|Hg]%elem_of_cons; [|by apply Hin].
        rewrite Hout, lookup_insert_eq by assumption. by rewrite EF.
      * intros g Hg%not_elem_of_cons. destruct Hg as [Hne Hg].
        rewrite Hout, lookup_insert_ne by auto. reflexivity.
    + destruct (present prim sec f) eqn:Hp.
      { apply Hpres in Hp; [|left]. rewrite EF in Hp. by apply is_Some_None in Hp. }
      intros Hd Hs.
      assert (Hnone' : forall g, g ∈ fs -> flds !! g = None).
      { intros g Hg. apply Hnone. by right. }
      destruct (IH Hpres' d off flds) as (flds' & Hu & Hin & Hout);
        try assumption.
      exists flds'. split; [exact Hu|]. split.
      * intros g [->|Hg]%elem_of_cons; [|by apply Hin].
        rewrite Hout, EF by assumption. apply Hnone. left.
      * intros g Hg%not_elem_of_cons. destruct Hg as [Hne Hg]. by apply Hout.
Qed.

Lemma present_packed (F : gmap Z (list byte)) bm g :
  bitsOf (map_to_list F).*1 bm -> g ∈ fieldNumbers ->
  present (if bm.2 =? 0 then bm.1 else Z.lor bm.1 (2 ^ 63)) bm.2 g = true <->
  is_Some (F !! g).
Proof.
  intros [H1 H2] Hg%elem_of_fieldNumbers. rewrite <- elem_of_keys.
  destruct (Z.le_gt_cases g 64).
  - rewrite present_low by lia.
    assert (E : Z.testbit (if bm.2 =? 0 then bm.1 else Z.lor bm.1 (2 ^ 63))
                  (64 - g) = Z.testbit bm.1 (64 - g)).
    { destruct (bm.2 =? 0); [reflexivity|]. rewrite lor_bit by lia.
      destruct (Z.eqb_spec 63 (64 - g)); [lia|]. apply orb_false_r. }
    rewrite E, H1 by lia. replace (64 - (64 - g)) with g by lia.
    intuition lia.
  - rewrite present_high, H2 by lia. replace (128 - (128 - g)) with g by lia.
    intuition lia.
Qed.

Lemma sub_skip a x n lo hi :
  len a = n -> n <= lo <= hi -> sub (a ++ x) lo hi = sub x (lo - n) (hi - n).
Proof.
  intros <- H. rewrite <- (sub_app_r a x (lo - len a) (hi - len a)) by lia.
  f_equal; lia.
Qed.

(** Whenever [Pack] succeeds, [Unpack] accepts its output and returns the
    message that was packed: the same MTI and the same fields. *)
Theorem Unpack_Pack m b : Pack m = Ok b -> Unpack b = Ok m.
Proof.
  intros (Hmti & HF & bm & data & Hbm & Hbits & Hd & ->)%Pack_Ok_inv.
  pose proof (packFields_fieldNumbers_len _ _ Hd) as Hdl.
  pose proof (len_nonneg data) as Hd0.
  pose proof (bitsOf_range _ _ Hbits) as [Hr1 Hr2].
  pose proof (bitsOf_primary_63 _ _ Hbits) as H63.
  pose proof (len_bitmapBytes bm) as Hlb.
  assert (Hlb' : 8 <= len (bitmapBytes bm) <= 16)
    by (rewrite Hlb; destruct (bm.2 =? 0); lia).
  set (prim := if bm.2 =? 0 then bm.1 else Z.lor bm.1 (2 ^ 63)).
  assert (Hprim : 0 <= prim < 2 ^ 64 /\ Z.testbit prim 63 = negb (bm.2 =? 0)).
  { unfold prim. destruct (bm.2 =? 0); [split; [lia|exact H63]|].
    pose proof (lor_shiftl_add bm.1 1 63 ltac:(lia) Hr1) as E.
    rewrite Z.shiftl_1_l in E. rewrite E. split; [lia|].
    rewrite <- E, lor_bit by lia. apply orb_true_r. }
  destruct Hprim as [Hpr Hp63].
  set (q := MTI m ++ bitmapBytes bm ++ data).
  assert (Hq : len q = 4 + len (bitmapBytes bm) + len data).
  { unfold q. rewrite !len_app. lia. }
  rewrite <- (app_nil_r (prependMLI q)), Unpack_prependMLI
    by (destruct (bm.2 =? 0); lia).
  assert (Hmti4 : sub q 0 4 = MTI m).
  { unfold q. rewrite sub_app_l by lia. rewrite <- Hmti. apply sub_all. }
  assert (Hb1 : sub q 4 12 = PutUint64 prim).
  { unfold q, bitmapBytes. fold prim.
    rewrite (sub_skip _ _ 4) by (assumption || lia).
    rewrite <- app_assoc, sub_app_l by (rewrite ?len_PutUint64; lia). reflexivity. }
  assert (Hdata : sub q (4 + len (bitmapBytes bm))
                        (4 + len (bitmapBytes bm) + len data) = data).
  { unfold q. rewrite app_assoc.
    rewrite (sub_skip _ _ (4 + len (bitmapBytes bm)))
      by (rewrite ?len_app; lia).
    rewrite Z.sub_diag. replace (_ + _ - _) with (len data) by lia.
    apply sub_all. }
  assert (Hnone : forall g, g ∈ fieldNumbers -> (∅ : gmap Z (list byte)) !! g = None).
  { intros g _. apply lookup_empty. }
  destruct (packFields_unpackFields fieldNumbers (Fields m) q prim bm.2
              NoDup_fieldNumbers (fun g => present_packed _ bm g Hbits)
              data (4 + len (bitmapBytes bm)) ∅)
    as (flds' & Hu & Hin & Hout); try assumption; try lia.
  assert (Hflds : flds' = Fields m).
  { apply map_eq. intros g. destruct (decide (g ∈ fieldNumbers)) as [Hg|Hg].
    - by apply Hin.
    - rewrite Hout, lookup_empty by assumption. symmetry.
      apply eq_None_not_Some. intros Hs%elem_of_keys.
      rewrite Forall_forall in HF. apply Hg, elem_of_fieldNumbers, HF, Hs. }
  subst flds'.
  unfold unpackPayload. destruct (Z.ltb_spec (len q) 12); [lia|]. cbv zeta.
  rewrite Hb1, Uint64_PutUint64, Hp63, Hmti4 by assumption.
  clear Hlb'. rewrite Hlb in *. destruct (Z.eqb_spec bm.2 0) as [E0|E0]; cbn [negb].
  - rewrite <- E0. cbn [mbind result_bind].
    change (4 + 8) with 12 in Hu. rewrite Hu. cbn [mbind result_bind].
    destruct (Z.eqb_spec (12 + len data) (len q)); [|lia]. cbn.
    by destruct m.
  - destruct (Z.ltb_spec (len q) 20); [lia|].
    assert (Hb2 : sub q 12 20 = PutUint64 bm.2).
    { unfold q, bitmapBytes. apply Z.eqb_neq in E0. rewrite E0.
      rewrite (sub_skip _ _ 4) by (assumption || lia).
      rewrite <- app_assoc, (sub_skip _ _ 8) by (reflexivity || lia).
      rewrite sub_app_l by (rewrite ?len_PutUint64; lia). reflexivity. }
    rewrite Hb2, Uint64_PutUint64 by lia. cbn [mbind result_bind].
    change (4 + 16) with 20 in Hu. rewrite Hu. cbn [mbind result_bind].
    destruct (Z.eqb_spec (20 + len data) (len q)); [|lia]. cbn.
    by destruct m.
Qed.

(** *** Messages that [Pack] accepts *)

Lemma fieldOk_packField f v : fieldOk f v = true -> isOk (packField f v []) = true.
Proof.
  unfold fieldOk, packField, packLLVAR, packLLLVAR.
  destruct (f =? 7); [|destruct (f =? 11); [|destruct (f =? 48);
    [|destruct (f =? 70); [|destruct (f =? 102)]]]]; cbv iota;
  try discriminate;
  try (intros ->; reflexivity);
  intros H%Z.leb_le;
  match goal with
  | |- context [?a >? ?b] => destruct (Z.gtb_spec a b); [lia|reflexivity]
  end.
Qed.

Lemma fieldOk_range f v : fieldOk f v = true -> 2 <= f <= 128.
Proof.
  unfold fieldOk.
  repeat match goal with
  | |- context [f =? ?n] => destruct (Z.eqb_spec f n); [lia|]
  end. discriminate.
Qed.

Lemma packFields_Ok fs (F : gmap Z (list byte)) :
  (forall g v, F !! g = Some v -> fieldOk g v = true) ->
  exists d, packFields fs F [] = Ok d.
Proof.
  intros HF. induction fs as [|f fs [d IH]]; cbn [packFields]; [eauto|].
  destruct (F !! f) as [v|] eqn:E; [|eauto].
  apply HF, fieldOk_packField in E.
  destruct (packField f v []) as [d1| |]; try discriminate. cbn.
  rewrite packFields_prepend, IH. cbn. eauto.
Qed.

(** A message with an MTI of four bytes and fields among 7, 11, 48, 70 and
    102, of the lengths the skeleton accepts, packs, and unpacks to itself. *)
Theorem Unpack_Pack_implemented m :
  len (MTI m) = 4 ->
  (forall f v, Fields m !! f = Some v -> fieldOk f v = true) ->
  exists b, Pack m = Ok b /\ Unpack b = Ok m.
Proof.
  intros Hmti HF.
  assert (Hk : Forall (fun f => 2 <= f <= 128) (keysOf m)).
  { apply Forall_forall. intros f [v Hv]%elem_of_keys.
    eapply fieldOk_range, HF, Hv. }
  destruct (buildBitmaps_Ok _ Hk) as (bm & Hbm & _).
  destruct (packFields_Ok fieldNumbers _ HF) as [d Hd].
  pose proof (Pack_eq m bm Hmti Hbm) as HP. rewrite Hd in HP.
  eexists. split; [exact HP|]. apply Unpack_Pack, HP.
Qed.

(** *** Concrete frames *)

Lemma Pack_Unpack_canonical_witness :
  Unpack variableFieldsFrame = Ok variableFields /\
  canonical variableFieldsFrame = true /\
  Pack variableFields = Ok variableFieldsFrame.
Proof.
  assert (H1 : Unpack variableFieldsFrame = Ok variableFields)
    by (vm_compute; reflexivity).
  assert (H2 : canonical variableFieldsFrame = true)
    by (vm_compute; reflexivity).
  split; [exact H1|]. split; [exact H2|].
  exact (Pack_Unpack_canonical variableFieldsFrame variableFields H1 H2).
Defined.

(** C3 fails as stated: [Unpack] accepts a frame whose primary bitmap has
    bit 1 set in front of a secondary bitmap that is zero, and [Pack] of the
    message it returns is a different, shorter frame. *)
Lemma Pack_Unpack_counterexample :
  Unpack emptySecondaryFrame = Ok (New (bytes "0800")) /\
  Pack (New (bytes "0800")) =
    Ok ([x00; x0c] ++ bytes "0800" ++
        [x00; x00; x00; x00; x00; x00; x00; x00]) /\
  Pack (New (bytes "0800")) <> Ok emptySecondaryFrame.
Proof.
  split; [vm_compute; reflexivity|]. split; [vm_compute; reflexivity|].
  vm_compute. discriminate.
Qed.

(** Two more frames that [Unpack] accepts and [Pack] does not reproduce:
    one followed by a byte beyond its MLI, one with a signed length prefix. *)
Example Pack_Unpack_trailing :
  Unpack (prependMLI stanPayload ++ bytes "X") = Ok stanMessage /\
  Pack stanMessage = Ok (prependMLI stanPayload).
Proof. split; vm_compute; reflexivity. Qed.

Example Pack_Unpack_signed_prefix :
  Unpack signedLengthFrame = Ok (Set_ (New (bytes "0200")) 48 (bytes "HELLO")) /\
  Pack (Set_ (New (bytes "0200")) 48 (bytes "HELLO")) =
    Ok ([x00; x14] ++ bytes "0200" ++
        [x00; x00; x00; x00; x00; x01; x00; x00] ++ bytes "005HELLO").
Proof. split; vm_compute; reflexivity. Qed.

Lemma Unpack_extra_bytes_witness :
  Unpack (prependMLI stanPayload) = Ok stanMessage /\
  Unpack (prependMLI (stanPayload ++ bytes "X")) = Err (ErrExtraBytes 1) /\
  Unpack (prependMLI stanPayload ++ bytes "YZ") = Ok stanMessage.
Proof.
  assert (H1 : Unpack (prependMLI stanPayload) = Ok stanMessage)
    by (vm_compute; reflexivity).
  assert (H2 : len stanPayload + 1 + len [] < 2 ^ 16)
    by (vm_compute; reflexivity).
  split; [exact H1|].
  exact (Unpack_extra_bytes stanPayload stanMessage "X"%byte [] (bytes "YZ") H1 H2).
Defined.

(** C4 fails as stated: a buffer that extends past offset [2 + MLI] is
    accepted, the bytes beyond that offset being ignored. *)
Lemma Unpack_trailing_counterexample :
  2 + Uint16 (take 2 (prependMLI stanPayload ++ bytes "X")) <
    len (prependMLI stanPayload ++ bytes "X") /\
  Unpack (prependMLI stanPayload ++ bytes "X") = Ok stanMessage.
Proof. split; vm_compute; reflexivity. Qed.

(** C1.  The PAN, field 2, is an LLVAR field of the Field Spec and the value
    has 16 bytes, yet [Pack] rejects the message. *)
Theorem Pack_rejects_PAN : Pack panMessage = Err (ErrNotImplemented 2).
Proof. vm_compute. reflexivity. Qed.

(** C2.  [Pack] rejects the message with MTI [0210] and field 39 set to
    [30], which the test [TestBadDataResponse] expects to round-trip. *)
Theorem Pack_rejects_response_code :
  Pack badDataResponse = Err (ErrNotImplemented 39).
Proof. vm_compute. reflexivity. Qed.

(** C8.  The limits are not those of [Pack] for the other variable-length
    fields of [CommonSpec]: a value of 99 bytes in the LLVAR field 2 and a
    value of 999 bytes in the LLLVAR field 55, the fields of the tests
    [TestPackLLVARTooLong] and [TestPackLLLVARTooLong], are rejected as not
    implemented, although they are within the limits. *)
Theorem Pack_rejects_values_within_limits :
  len (replicate 99 "1"%byte) = 99 /\
  Pack (Set_ (New (bytes "0200")) 2 (replicate 99 "1"%byte)) =
    Err (ErrNotImplemented 2) /\
  len (replicate 999 "A"%byte) = 999 /\
  Pack (Set_ (New (bytes "0200")) 55 (replicate 999 "A"%byte)) =
    Err (ErrNotImplemented 55).
Proof. repeat split; vm_compute; reflexivity. Qed.

(** C10.  [Unpack] panics on a frame whose LLLVAR length prefix is [-01]:
    the slice expression [b[15:14]] is out of range. *)
Theorem Unpack_panics_on_negative_length :
  Unpack negativeLengthFrame = Panic.
Proof. vm_compute. reflexivity. Qed.

(** *** The reconnect loop *)

(** C5.  With the default base of two seconds and a peer that never
    answers, the fifth and later sleeps last 32 seconds, above the cap of
    30 seconds. *)
Theorem loop_sleeps_exceed_cap :
  sleeps (loop {| RetryBacko := 2 * Second |} (replicate 6 false)) =
    [2 * Second; 4 * Second; 8 * Second; 16 * Second; 32 * Second;
     32 * Second] /\
  30 * Second < 32 * Second.
Proof. split; vm_compute; reflexivity. Qed.

Lemma baseBackoff_pos cfg : 0 < baseBackoff cfg.
Proof.
  unfold baseBackoff, Second. destruct (Z.leb_spec (RetryBacko cfg) 0); lia.
Qed.

(** The first sleep lasts the base backoff. *)
Lemma loop_first_sleep cfg dials :
  sleeps (loop cfg (false :: dials)) =
  baseBackoff cfg :: sleeps (iterate cfg
    (if baseBackoff cfg <? 30 * Second then wrapInt64 (baseBackoff cfg * 2)
     else baseBackoff cfg) dials).
Proof. reflexivity. Qed.

(** Below 30 seconds the backoff doubles. *)
Lemma iterate_doubles cfg backoff dials :
  0 < backoff < 30 * Second ->
  sleeps (iterate cfg backoff (false :: dials)) =
  backoff :: sleeps (iterate cfg (2 * backoff) dials).
Proof.
  intros H. cbn [iterate sleeps omap]. unfold Second in *.
  destruct (Z.ltb_spec backoff (30 * 1000000000)); [|lia].
  unfold wrapInt64. rewrite Z.mod_small by lia.
  replace (backoff * 2 + 2 ^ 63 - 2 ^ 63) with (2 * backoff) by lia.
  reflexivity.
Qed.

(** After a successful dial the backoff is the base again. *)
Lemma iterate_success cfg backoff dials :
  iterate cfg backoff (true :: dials) =
  OnUp :: ReadLoop :: OnDown :: loop cfg dials.
Proof. reflexivity. Qed.

(** No sleep lasts a minute, if the base is below 30 seconds. *)
Lemma iterate_sleeps_bound cfg dials backoff :
  RetryBacko cfg < 30 * Second -> 0 < backoff < 60 * Second ->
  Forall (fun d => 0 < d < 60 * Second) (sleeps (iterate cfg backoff dials)).
Proof.
  intros Hcfg. revert backoff.
  assert (Hbase : 0 < baseBackoff cfg < 60 * Second).
  { pose proof (baseBackoff_pos cfg). unfold baseBackoff, Second in *.
    destruct (Z.leb_spec (RetryBacko cfg) 0); lia. }
  induction dials as [|[] dials IH]; intros backoff Hb.
  - constructor.
  - rewrite iterate_success. cbn [sleeps omap]. apply IH, Hbase.
  - cbn [iterate sleeps omap]. constructor; [exact Hb|]. apply IH.
    unfold Second in *. destruct (Z.ltb_spec backoff (30 * 1000000000)); [|lia].
    unfold wrapInt64. rewrite Z.mod_small by lia. lia.
Qed.

(** *** What [Atoi] returns *)

Lemma atoiDigits_bound s n r :
  0 <= n -> atoiDigits s n = Some r ->
  n * 10 ^ len s <= r < (n + 1) * 10 ^ len s.
Proof.
  revert n. induction s as [|c s IH]; intros n Hn; cbn [atoiDigits].
  - intros [= <-]. rewrite len_nil. lia.
  - cbv zeta. pose proof (Z.mod_pos_bound (byteZ c - 48) 256 ltac:(lia)) as Hd.
    destruct (Z.gtb_spec ((byteZ c - 48) mod 256) 9); [discriminate|].
    intros Hr%IH; [|lia]. rewrite len_cons.
    pose proof (len_nonneg s).
    rewrite Z.pow_add_r, Z.pow_1_r by lia.
    assert (0 < 10 ^ len s) by (apply Z.pow_pos_nonneg; lia). nia.
Qed.

Lemma Atoi_bound s l : Atoi s = Some l -> - 10 ^ len s < l < 10 ^ len s.
Proof.
  unfold Atoi. destruct s as [|c rest]; [discriminate|]. cbv zeta.
  pose proof (len_nonneg rest). rewrite len_cons.
  assert (Hp : 0 < 10 ^ len rest) by (apply Z.pow_pos_nonneg; lia).
  assert (Hp' : 10 ^ (1 + len rest) = 10 * 10 ^ len rest)
    by (rewrite Z.pow_add_r, Z.pow_1_r by lia; reflexivity).
  destruct (bool_decide (c = "-"%byte) || bool_decide (c = "+"%byte)) eqn:Es.
  - destruct (_ && _); [discriminate|].
    destruct (atoiDigits rest 0) as [n|] eqn:E; [|discriminate].
    apply atoiDigits_bound in E; [|lia].
    destruct (bool_decide (c = "-"%byte)); intros [= <-]; lia.
  - cbn [andb]. destruct (atoiDigits (c :: rest) 0) as [n|] eqn:E; [|discriminate].
    apply atoiDigits_bound in E; [|lia]. rewrite len_cons in E.
    apply orb_false_elim in Es as [-> _]. intros [= <-]. lia.
Qed.

Lemma Atoi_negative s l :
  Atoi s = Some l -> l < 0 -> exists rest, s = "-"%byte :: rest.
Proof.
  unfold Atoi. destruct s as [|c rest]; [discriminate|]. cbv zeta.
  destruct (decide (c = "-"%byte)) as [->|Hc]; [eauto|].
  rewrite (bool_decide_eq_false_2 _ Hc).
  destruct (_ && _); [discriminate|].
  destruct (atoiDigits _ 0) as [n|] eqn:E; [|discriminate].
  apply atoiDigits_bound in E; [|lia]. intros [= <-] Hl.
  assert (0 <= 0 * 10 ^ len (if false || bool_decide (c = "+"%byte) then rest else c :: rest)) by lia.
  lia.
Qed.

(** *** What [Unpack] returns *)

Lemma unpackVar_len w c b off v off' :
  0 <= off -> 0 <= w -> off + w <= len b ->
  unpackVar w c b off = Ok (v, off') -> 0 <= len v < 10 ^ w.
Proof.
  intros Hoff Hw Hle (l & Ha & Hl & -> & Hle' & ->)%unpackVar_Ok.
  rewrite len_sub by lia. apply Atoi_bound in Ha.
  rewrite len_sub in Ha by lia. replace (off + w - off) with w in Ha by lia.
  lia.
Qed.

(** A field that [unpackField] reads has a length that [Pack] accepts. *)
Lemma unpackField_fieldOk f p off v off' :
  0 <= off -> unpackField f p off = Ok (v, off') -> fieldOk f v = true.
Proof.
  intros Hoff. rewrite unpackField_eq by assumption. unfold fieldOk.
  destruct (f =? 7); [|destruct (f =? 11); [|destruct (f =? 48);
    [|destruct (f =? 70); [|destruct (f =? 102)]]]]; try discriminate.
  1,2,4: intros (-> & ? & ->)%unpackFixed_Ok; rewrite len_sub by lia;
         apply Z.eqb_eq; lia.
  - intros Hr%wrapDE_Ok. destruct (Z.gtb_spec (off + 3) (len p)); [discriminate|].
    apply unpackVar_len in Hr; lia.
  - intros Hr%wrapDE_Ok. destruct (Z.gtb_spec (off + 2) (len p)); [discriminate|].
    apply unpackVar_len in Hr; lia.
Qed.

Lemma unpackFields_fieldOk fs p prim sec off flds off' flds' :
  0 <= off ->
  (forall f v, flds !! f = Some v -> fieldOk f v = true) ->
  unpackFields fs p prim sec off flds = Ok (off', flds') ->
  forall f v, flds' !! f = Some v -> fieldOk f v = true.
Proof.
  revert off flds. induction fs as [|g fs IH]; intros off flds Hoff Hok.
  - cbn. intros [= <- <-]. exact Hok.
  - rewrite unpackFields_cons. destruct (present prim sec g); [|by apply IH].
    intros ([v off1] & Hu & Hrest)%bind_Ok_inv.
    pose proof (unpackField_advance _ _ _ _ _ Hoff Hu).
    apply (IH off1 (<[g:=v]> flds)); [lia| |exact Hrest].
    intros f w. destruct (decide (g = f)) as [->|Hne].
    + rewrite lookup_insert_eq. intros [= <-].
      exact (unpackField_fieldOk _ _ _ _ _ Hoff Hu).
    + rewrite lookup_insert_ne by assumption. apply Hok.
Qed.

Lemma Unpack_fields_ok b m :
  Unpack b = Ok m ->
  len (MTI m) = 4 /\ forall f v, Fields m !! f = Some v -> fieldOk f v = true.
Proof.
  intros (H2 & Hmli & Hp)%Unpack_Ok_payload.
  apply unpackPayload_Ok in Hp as (sec & off & H12 & Hmti & Hcase & Hw).
  split; [rewrite Hmti; apply len_sub; lia|].
  assert (Hoff : 0 <= off) by (destruct (Z.testbit _ 63); lia).
  apply (unpackFields_fieldOk _ _ _ _ _ _ _ _ Hoff) with (2 := Hw).
  intros f v. rewrite lookup_empty. discriminate.
Qed.

(** [Pack] accepts exactly the messages with an MTI of four bytes whose
    fields are among 7, 11, 48, 70 and 102 and have the lengths of
    [fieldOk]. *)
Theorem Pack_accepts_iff m :
  (exists b, Pack m = Ok b) <->
  len (MTI m) = 4 /\ forall f v, Fields m !! f = Some v -> fieldOk f v = true.
Proof.
  split.
  - intros [b Hb]. apply (Unpack_fields_ok b), Unpack_Pack, Hb.
  - intros [Hmti HF]. destruct (Unpack_Pack_implemented m Hmti HF) as (b & Hb & _).
    eauto.
Qed.

(** What [Unpack] accepts, [Pack] can encode again, and the frame it gives
    unpacks to the same message. *)
Theorem Unpack_repack b m :
  Unpack b = Ok m -> exists b', Pack m = Ok b' /\ Unpack b' = Ok m.
Proof.
  intros [Hmti HF]%Unpack_fields_ok. exact (Unpack_Pack_implemented m Hmti HF).
Qed.

(** A field number outside 2..128 makes [Pack] fail with
    [unsupported field], whatever else the message holds. *)
Theorem Pack_unsupported_field m f :
  len (MTI m) = 4 -> is_Some (Fields m !! f) -> f < 2 \/ 128 < f ->
  Pack m = Err ErrUnsupportedField.
Proof.
  intros Hmti Hf Hr. unfold Pack. rewrite Hmti. cbn [Z.eqb Pos.eqb negb].
  fold (keysOf m). rewrite buildBitmaps_Err; [reflexivity|].
  rewrite Forall_forall. intros HF.
  specialize (HF f (proj2 (elem_of_keys _ _) Hf)). lia.
Qed.

(** A message whose MTI is not four bytes long is rejected first. *)
Lemma Pack_invalid_MTI m : len (MTI m) <> 4 -> Pack m = Err ErrInvalidMTI.
Proof.
  intros H. unfold Pack. destruct (Z.eqb_spec (len (MTI m)) 4); [contradiction|].
  reflexivity.
Qed.

(** Every proper prefix of a frame that [Pack] returns is rejected: as too
    short for the MLI below two bytes, as incomplete from there on. *)
Theorem Unpack_prefix_rejected m b n :
  Pack m = Ok b -> 0 <= n < len b ->
  Unpack (sub b 0 n) =
  if n <? 2 then Err ErrShortMLI else Err (ErrIncomplete (len b - 2) (n - 2)).
Proof.
  intros (body & -> & Hb)%Pack_len_body Hn.
  destruct (Uint16_prependMLI body) as [H1 H2]; [lia|].
  assert (Hl : len (sub (prependMLI body) 0 n) = n) by (rewrite len_sub; lia).
  destruct (Z.ltb_spec n 2).
  - apply Unpack_short. lia.
  - assert (E : sub (sub (prependMLI body) 0 n) 0 2 = take 2 (prependMLI body)).
    { change (take 2 (prependMLI body)) with (sub (prependMLI body) 0 2).
      rewrite <- (sub_all (prependMLI body)) at 2.
      rewrite (sub_split (prependMLI body) 0 n (len (prependMLI body))) by lia.
      rewrite sub_app_l by lia. reflexivity. }
    rewrite Unpack_incomplete; rewrite ?E, ?H1, ?Hl; try lia.
    do 2 f_equal; lia.
Qed.

(** *** Bitmaps and fields *)

Lemma Unpack_fields_present b m f :
  Unpack b = Ok m ->
  is_Some (Fields m !! f) <->
  2 <= f <= 128 /\ present (frameBitmaps b).1 (frameBitmaps b).2 f = true.
Proof.
  intros (H2 & Hmli & Hp)%Unpack_Ok_payload. unfold frameBitmaps. cbv zeta.
  cbn [fst snd]. set (p := sub b 2 (2 + Uint16 (sub b 0 2))) in *.
  apply unpackPayload_Ok in Hp as (sec & off & H12 & Hmti & Hcase & Hw).
  assert (Hoff : 0 <= off) by (destruct (Z.testbit _ 63); lia).
  rewrite (unpacked_fields _ _ _ _ _ Hoff Hw), elem_of_fieldNumbers.
  destruct (Z.testbit (Uint64 (sub p 4 12)) 63).
  - destruct Hcase as (_ & -> & _). reflexivity.
  - destruct Hcase as (-> & _). reflexivity.
Qed.

(** The bitmaps of a frame that [Pack] returns mark exactly the fields of the
    message: bit [f] is set if and only if field [f] is present. *)
Theorem Pack_bitmap_marks_fields m b f :
  Pack m = Ok b -> 2 <= f <= 128 ->
  present (frameBitmaps b).1 (frameBitmaps b).2 f = true <->
  is_Some (Fields m !! f).
Proof.
  intros Hp%Unpack_Pack Hf. rewrite (Unpack_fields_present b m f Hp). tauto.
Qed.

(** *** The layout of a frame *)

Lemma packFields_one f (F : gmap Z (list byte)) body :
  packFields [f] F body =
  match F !! f with
  | None => Ok body
  | Some v => packField f v body
  end.
Proof.
  cbn [packFields]. destruct (F !! f); [|reflexivity]. apply bind_ret_r.
Qed.

Lemma fieldOk_implemented f v : fieldOk f v = true -> implemented f = true.
Proof.
  unfold fieldOk, implemented.
  destruct (f =? 7); [|destruct (f =? 11); [|destruct (f =? 48);
    [|destruct (f =? 70); [|destruct (f =? 102)]]]]; try reflexivity.
  discriminate.
Qed.

Lemma fieldOk_packField_eq m f v :
  Fields m !! f = Some v -> fieldOk f v = true ->
  packField f v [] = Ok (wireField m f).
Proof.
  intros E. unfold wireField. rewrite E.
  unfold fieldOk, packField, packLLVAR, packLLLVAR.
  field_cases f; cbn [Z.eqb Pos.eqb];
    repeat match goal with
    | H : ?f <> ?n |- _ => apply Z.eqb_neq in H; rewrite ?H; clear H
    end;
    try discriminate; try (intros ->; reflexivity); intros H%Z.leb_le;
    match goal with
    | |- context [?a >? ?b] => destruct (Z.gtb_spec a b); [lia|reflexivity]
    end.
Qed.

Lemma packFields_range_absent (F : gmap Z (list byte)) lo n :
  (forall f v, F !! f = Some v -> implemented f = true) ->
  forallb (fun f => negb (implemented f)) (seqZ lo n) = true ->
  packFields (seqZ lo n) F [] = Ok [].
Proof.
  intros HF Hr. apply packFields_absent. intros f Hf%list_elem_of_In.
  rewrite forallb_forall in Hr. specialize (Hr f Hf).
  destruct (F !! f) as [v|] eqn:E; [|reflexivity].
  apply HF in E. rewrite E in Hr. discriminate.
Qed.

Lemma packFields_wireField m f :
  (forall f v, Fields m !! f = Some v -> fieldOk f v = true) ->
  packFields [f] (Fields m) [] = Ok (wireField m f).
Proof.
  intros HF. rewrite packFields_one. destruct (Fields m !! f) as [v|] eqn:E.
  - apply fieldOk_packField_eq; auto.
  - unfold wireField. rewrite E. reflexivity.
Qed.

(** The fields of a frame follow the bitmaps in ascending order of their
    numbers: 7, 11, 48, 70, 102, each present one in its encoding. *)
Theorem Pack_layout m b :
  Pack m = Ok b ->
  exists bitmaps,
    (len bitmaps = 8 \/ len bitmaps = 16) /\
    b = prependMLI (MTI m ++ bitmaps ++ wireField m 7 ++ wireField m 11 ++
                    wireField m 48 ++ wireField m 70 ++ wireField m 102).
Proof.
  intros Hp. pose proof (Unpack_fields_ok b m (Unpack_Pack m b Hp)) as [_ HF].
  apply Pack_Ok_inv in Hp as (_ & _ & bm & data & _ & _ & Hd & ->).
  exists (bitmapBytes bm). split.
  { rewrite len_bitmapBytes. destruct (bm.2 =? 0); auto. }
  do 3 f_equal.
  assert (Himp : forall f v, Fields m !! f = Some v -> implemented f = true).
  { intros f v E. eapply fieldOk_implemented, HF, E. }
  change fieldNumbers with
    (seqZ 2 5 ++ [7] ++ seqZ 8 3 ++ [11] ++ seqZ 12 36 ++ [48] ++
     seqZ 49 21 ++ [70] ++ seqZ 71 31 ++ [102] ++ seqZ 103 26) in Hd.
  repeat (rewrite packFields_app in Hd;
          first [ rewrite packFields_range_absent in Hd by (assumption || reflexivity)
                | rewrite packFields_wireField in Hd by assumption ];
          cbn [mbind result_bind] in Hd;
          try rewrite packFields_prepend in Hd).
  rewrite packFields_range_absent in Hd by (assumption || reflexivity).
  cbn [prepend app] in Hd. rewrite app_nil_r in Hd. congruence.
Qed.

(** *** The helpers for variable-length fields *)

(** What [packLLVAR] appends to a buffer, [unpackLLVAR] reads back from the
    offset where the buffer ended, whatever follows. *)
Theorem packLLVAR_unpackLLVAR buf v out rest :
  packLLVAR buf v = Ok out ->
  unpackLLVAR (out ++ rest) (len buf) = Ok (v, len out).
Proof.
  unfold packLLVAR. destruct (Z.gtb_spec (len v) 99); [discriminate|].
  intros [= <-]. pose proof (len_nonneg buf). pose proof (len_nonneg v).
  pose proof (len_nonneg rest).
  destruct (Sprintf0d_2_Atoi (len v)) as [_ Ha]; [lia|].
  pose proof (len_Sprintf0d_2 (len v) ltac:(lia)) as Hl.
  rewrite unpackLLVAR_eq by lia. rewrite !len_app, Hl.
  destruct (Z.gtb_spec (len buf + 2) (len buf + (2 + len v) + len rest)); [lia|].
  unfold unpackVar. rewrite <- !app_assoc.
  rewrite (sub_skip buf _ (len buf)) by lia.
  rewrite sub_app_l by lia.
  replace (len buf + 2 - len buf) with (len (Sprintf0d 2 (len v))) by lia.
  rewrite Z.sub_diag, sub_all, Ha, !len_app, Hl.
  destruct (Z.gtb_spec (len buf + 2 + len v) (len buf + (2 + (len v + len rest))));
    [lia|].
  destruct (Z.ltb_spec (len v) 0); [lia|].
  rewrite (sub_skip buf _ (len buf)) by lia.
  rewrite (sub_skip (Sprintf0d 2 (len v)) _ 2) by lia.
  rewrite sub_app_l by lia.
  replace (len buf + 2 - len buf - 2) with 0 by lia.
  replace (len buf + 2 + len v - len buf - 2) with (len v) by lia.
  rewrite sub_all. do 2 f_equal. lia.
Qed.

Theorem packLLLVAR_unpackLLLVAR buf v out rest :
  packLLLVAR buf v = Ok out ->
  unpackLLLVAR (out ++ rest) (len buf) = Ok (v, len out).
Proof.
  unfold packLLLVAR. destruct (Z.gtb_spec (len v) 999); [discriminate|].
  intros [= <-]. pose proof (len_nonneg buf). pose proof (len_nonneg v).
  pose proof (len_nonneg rest).
  destruct (Sprintf0d_3_Atoi (len v)) as [_ Ha]; [lia|].
  pose proof (len_Sprintf0d_3 (len v) ltac:(lia)) as Hl.
  rewrite unpackLLLVAR_eq by lia. rewrite !len_app, Hl.
  destruct (Z.gtb_spec (len buf + 3) (len buf + (3 + len v) + len rest)); [lia|].
  unfold unpackVar. rewrite <- !app_assoc.
  rewrite (sub_skip buf _ (len buf)) by lia.
  rewrite sub_app_l by lia.
  replace (len buf + 3 - len buf) with (len (Sprintf0d 3 (len v))) by lia.
  rewrite Z.sub_diag, sub_all, Ha, !len_app, Hl.
  destruct (Z.gtb_spec (len buf + 3 + len v) (len buf + (3 + (len v + len rest))));
    [lia|].
  destruct (Z.ltb_spec (len v) 0); [lia|].
  rewrite (sub_skip buf _ (len buf)) by lia.
  rewrite (sub_skip (Sprintf0d 3 (len v)) _ 3) by lia.
  rewrite sub_app_l by lia.
  replace (len buf + 3 - len buf - 3) with 0 by lia.
  replace (len buf + 3 + len v - len buf - 3) with (len v) by lia.
  rewrite sub_all. do 2 f_equal. lia.
Qed.

(** *** When the codec panics *)

Lemma unpackVar_Panic_iff w c b off :
  0 <= off -> 0 <= w -> off + w <= len b ->
  unpackVar w c b off = Panic <->
  exists l, Atoi (sub b off (off + w)) = Some l /\ l < 0.
Proof.
  intros Hoff Hw Hle. unfold unpackVar.
  destruct (Atoi _) as [l|]; [|split; [discriminate|intros (? & [=] & _)]].
  destruct (Z.ltb_spec l 0).
  - destruct (Z.gtb_spec (off + w + l) (len b)); [lia|]. split; [eauto|reflexivity].
  - destruct (Z.gtb_spec (off + w + l) (len b));
      (split; [discriminate|intros (? & [= <-] & ?); lia]).
Qed.



Lemma elem_of_sub (x : byte) b lo hi : x ∈ sub b lo hi -> x ∈ b.
Proof.
  unfold sub. intros H%subseteq_take. by apply subseteq_drop in H.
Qed.

Lemma unpackVar_Panic_minus w c b off :
  0 <= off -> 0 <= w -> off + w <= len b ->
  unpackVar w c b off = Panic -> "-"%byte ∈ b.
Proof.
  intros Hoff Hw Hle (l & Ha & Hl)%unpackVar_Panic_iff; try assumption.
  destruct (Atoi_negative _ _ Ha Hl) as [rest E].
  apply (elem_of_sub _ b off (off + w)). rewrite E. apply elem_of_cons. auto.
Qed.

Lemma wrapDE_Panic {A} de (r : result A) : wrapDE de r = Panic -> r = Panic.
Proof. destruct r; cbn; congruence. Qed.

Lemma unpackField_Panic_minus f p off :
  0 <= off -> unpackField f p off = Panic -> "-"%byte ∈ p.
Proof.
  intros Hoff. rewrite unpackField_eq by assumption. unfold unpackFixed.
  destruct (f =? 7); [|destruct (f =? 11); [|destruct (f =? 48);
    [|destruct (f =? 70); [|destruct (f =? 102)]]]];
  try (destruct (_ >? _); discriminate); try discriminate;
  intros Hr%wrapDE_Panic;
  match goal with
  | Hr : (if ?a >? ?b then _ else _) = _ |- _ =>
      destruct (Z.gtb_spec a b); [discriminate|]
  end;
  apply unpackVar_Panic_minus in Hr; (assumption || lia).
Qed.

Lemma unpackFields_Panic_minus fs p prim sec off flds :
  0 <= off -> unpackFields fs p prim sec off flds = Panic -> "-"%byte ∈ p.
Proof.
  revert off flds. induction fs as [|f fs IH]; intros off flds Hoff.
  - discriminate.
  - rewrite unpackFields_cons. destruct (present prim sec f); [|by apply IH].
    destruct (unpackField f p off) as [[v off1]| |] eqn:E; cbn.
    + apply IH. apply unpackField_advance in E; lia.
    + discriminate.
    + intros _. exact (unpackField_Panic_minus _ _ _ Hoff E).
Qed.

(** [Unpack] panics only on frames that hold the byte [-]: a frame without
    one gets a message or an error. *)
Theorem Unpack_Panic_minus b : Unpack b = Panic -> "-"%byte ∈ b.
Proof.
  intros H. destruct (Z.lt_ge_cases (len b) 2).
  { rewrite Unpack_short in H by assumption. discriminate. }
  destruct (Z.lt_ge_cases (len b - 2) (Uint16 (sub b 0 2))).
  { rewrite Unpack_incomplete in H by lia. discriminate. }
  rewrite Unpack_payload in H by lia.
  apply (elem_of_sub _ b 2 (2 + Uint16 (sub b 0 2))).
  set (p := sub b 2 (2 + Uint16 (sub b 0 2))) in *.
  unfold unpackPayload in H. destruct (len p <? 12); [discriminate|].
  cbv zeta in H.
  destruct (Z.testbit (Uint64 (sub p 4 12)) 63).
  - destruct (len p <? 20); [discriminate|]. cbn [mbind result_bind] in H.
    destruct (unpackFields _ _ _ _ _ _) as [[off flds]| |] eqn:E;
      cbn [mbind result_bind] in H.
    + destruct (negb _); discriminate.
    + discriminate.
    + apply unpackFields_Panic_minus in E; [assumption|lia].
  - cbn [mbind result_bind] in H.
    destruct (unpackFields _ _ _ _ _ _) as [[off flds]| |] eqn:E;
      cbn [mbind result_bind] in H.
    + destruct (negb _); discriminate.
    + discriminate.
    + apply unpackFields_Panic_minus in E; [assumption|lia].
Qed.

Lemma Unpack_Panic_minus_witness :
  Unpack negativeLengthFrame = Panic /\ "-"%byte ∈ negativeLengthFrame.
Proof.
  assert (H : Unpack negativeLengthFrame = Panic) by (vm_compute; reflexivity).
  split; [exact H|]. exact (Unpack_Panic_minus negativeLengthFrame H).
Defined.

(** *** Instances *)

Lemma Unpack_repack_witness :
  Unpack emptySecondaryFrame = Ok (New (bytes "0800")) /\
  exists b', Pack (New (bytes "0800")) = Ok b' /\
             Unpack b' = Ok (New (bytes "0800")).
Proof.
  assert (H : Unpack emptySecondaryFrame = Ok (New (bytes "0800")))
    by (vm_compute; reflexivity).
  split; [exact H|]. exact (Unpack_repack _ _ H).
Defined.

Lemma Pack_unsupported_field_witness :
  Pack (Set_ (New (bytes "0200")) 129 (bytes "x")) = Err ErrUnsupportedField.
Proof.
  apply (Pack_unsupported_field _ 129).
  - vm_compute. reflexivity.
  - exists (bytes "x"). vm_compute. reflexivity.
  - right. lia.
Defined.

Lemma Unpack_prefix_rejected_witness :
  Pack echoRequest = Ok echoRequestFrame /\
  Unpack (sub echoRequestFrame 0 (len echoRequestFrame - 1)) =
    Err (ErrIncomplete 39 38).
Proof.
  assert (H : Pack echoRequest = Ok echoRequestFrame)
    by (vm_compute; reflexivity).
  split; [exact H|].
  exact (Unpack_prefix_rejected echoRequest echoRequestFrame
           (len echoRequestFrame - 1) H
           ltac:(vm_compute; split; [discriminate|reflexivity])).
Defined.

Lemma Pack_bitmap_marks_fields_witness :
  Pack echoRequest = Ok echoRequestFrame /\
  (present (frameBitmaps echoRequestFrame).1 (frameBitmaps echoRequestFrame).2
     70 = true <-> is_Some (Fields echoRequest !! 70)).
Proof.
  assert (H : Pack echoRequest = Ok echoRequestFrame)
    by (vm_compute; reflexivity).
  split; [exact H|].
  exact (Pack_bitmap_marks_fields echoRequest echoRequestFrame 70 H
           ltac:(lia)).
Defined.

Lemma Pack_layout_witness :
  Pack variableFields = Ok variableFieldsFrame /\
  exists bitmaps,
    (len bitmaps = 8 \/ len bitmaps = 16) /\
    variableFieldsFrame =
    prependMLI (MTI variableFields ++ bitmaps ++
                wireField variableFields 7 ++ wireField variableFields 11 ++
                wireField variableFields 48 ++ wireField variableFields 70 ++
                wireField variableFields 102).
Proof.
  assert (H : Pack variableFields = Ok variableFieldsFrame)
    by (vm_compute; reflexivity).
  split; [exact H|]. exact (Pack_layout _ _ H).
Defined.

Lemma packLLVAR_unpackLLVAR_witness :
  packLLVAR (bytes "XY") (bytes "ABCD") = Ok (bytes "XY04ABCD") /\
  unpackLLVAR (bytes "XY04ABCD" ++ bytes "Z") 2 = Ok (bytes "ABCD", 8).
Proof.
  assert (H : packLLVAR (bytes "XY") (bytes "ABCD") = Ok (bytes "XY04ABCD"))
    by (vm_compute; reflexivity).
  split; [exact H|].
  exact (packLLVAR_unpackLLVAR (bytes "XY") (bytes "ABCD") (bytes "XY04ABCD")
           (bytes "Z") H).
Defined.

Lemma packLLLVAR_unpackLLLVAR_witness :
  packLLLVAR [] (bytes "HELLO") = Ok (bytes "005HELLO") /\
  unpackLLLVAR (bytes "005HELLO" ++ []) 0 = Ok (bytes "HELLO", 8).
Proof.
  assert (H : packLLLVAR [] (bytes "HELLO") = Ok (bytes "005HELLO"))
    by (vm_compute; reflexivity).
  split; [exact H|].
  exact (packLLLVAR_unpackLLLVAR [] (bytes "HELLO") (bytes "005HELLO") [] H).
Defined.

(** Whenever [Pack] succeeds, [Unpack] accepts the frame and returns the
    message that was packed, with the same MTI and the same fields. *)
Theorem Unpack_inverts_Pack m b : Pack m = Ok b -> Unpack b = Ok m.
Proof. exact (Unpack_Pack m b). Qed.

Lemma Unpack_inverts_Pack_witness :
  Pack variableFields = Ok variableFieldsFrame /\
  Unpack variableFieldsFrame = Ok variableFields.
Proof.
  assert (H : Pack variableFields = Ok variableFieldsFrame)
    by (vm_compute; reflexivity).
  split; [exact H|]. exact (Unpack_inverts_Pack _ _ H).
Defined.

(** Every message [Unpack] returns has an MTI of four bytes and only fields
    that the skeleton implements, of lengths that [Pack] accepts. *)
Theorem Unpack_result_wellformed b m :
  Unpack b = Ok m ->
  len (MTI m) = 4 /\ forall f v, Fields m !! f = Some v -> fieldOk f v = true.
Proof. exact (Unpack_fields_ok b m). Qed.

Lemma Unpack_result_wellformed_witness :
  Unpack signedLengthFrame = Ok (Set_ (New (bytes "0200")) 48 (bytes "HELLO")) /\
  len (bytes "0200") = 4 /\ fieldOk 48 (bytes "HELLO") = true.
Proof.
  assert (H : Unpack signedLengthFrame =
              Ok (Set_ (New (bytes "0200")) 48 (bytes "HELLO")))
    by (vm_compute; reflexivity).
  split; [exact H|].
  destruct (Unpack_result_wellformed _ _ H) as [H1 H2].
  split; [exact H1|]. apply (H2 48). vm_compute. reflexivity.
Defined.

(** [Unpack] returns a field for every bit set in the bitmaps it reads, and
    no other field. *)
Theorem Unpack_fields_bitmap b m f :
  Unpack b = Ok m ->
  is_Some (Fields m !! f) <->
  2 <= f <= 128 /\ present (frameBitmaps b).1 (frameBitmaps b).2 f = true.
Proof. exact (Unpack_fields_present b m f). Qed.

Lemma Unpack_fields_bitmap_witness :
  Unpack variableFieldsFrame = Ok variableFields /\
  (is_Some (Fields variableFields !! 48) <->
   2 <= 48 <= 128 /\
   present (frameBitmaps variableFieldsFrame).1
           (frameBitmaps variableFieldsFrame).2 48 = true).
Proof.
  assert (H : Unpack variableFieldsFrame = Ok variableFields)
    by (vm_compute; reflexivity).
  split; [exact H|]. exact (Unpack_fields_bitmap _ _ 48 H).
Defined.

(** [Unpack] does not look at what follows the declared end of the frame:
    on a buffer that holds at least the [2 + MLI] bytes the MLI announces,
    appending bytes changes neither the message nor the error. *)
Theorem Unpack_ignores_trailing b t :
  2 <= len b -> 2 + Uint16 (sub b 0 2) <= len b -> Unpack (b ++ t) = Unpack b.
Proof. exact (Unpack_trailing b t). Qed.

Lemma Unpack_ignores_trailing_witness :
  Unpack (emptySecondaryFrame ++ bytes "ZZ") = Unpack emptySecondaryFrame.
Proof.
  apply Unpack_ignores_trailing; vm_compute; discriminate.
Defined.

(** With a base below 30 seconds every sleep of the reconnect loop is
    positive and shorter than a minute, whatever the dials do. *)
Theorem loop_sleeps_below_a_minute cfg dials :
  RetryBacko cfg < 30 * Second ->
  Forall (fun d => 0 < d < 60 * Second) (sleeps (loop cfg dials)).
Proof.
  intros H. apply iterate_sleeps_bound; [exact H|].
  pose proof (baseBackoff_pos cfg). unfold baseBackoff, Second in *.
  destruct (Z.leb_spec (RetryBacko cfg) 0); lia.
Qed.

Lemma loop_sleeps_below_a_minute_witness :
  Forall (fun d => 0 < d < 60 * Second)
    (sleeps (loop {| RetryBacko := 2 * Second |}
               [false; false; false; false; false; true; false])).
Proof.
  apply loop_sleeps_below_a_minute. vm_compute. reflexivity.
Defined.
